(** * MCP Apps renderer: content resolution, session lifecycle, tool selection

    A shallow embedding of [client/src/components/AppRenderer.tsx] and
    [client/src/components/AppsTab.tsx].

    - JavaScript strings are sequences of UTF-16 code units: [list N].
    - The value produced by [JSON.parse] is a [json]; [undefined] is
      [None] in [option json].
    - [try]/[catch] is a small exception monad, [completion].
    - A React component is a record of hook state together with a total
      [step] function over the events that drive it (commits, promise
      settlements, bridge callbacks); the observable calls it makes are
      appended to a log. *)

From Stdlib Require Import ZArith NArith String Ascii Lia.
From stdpp Require Import base option list gmap.

Set Warnings "-register-all".

Local Open Scope N_scope.

(** ** JavaScript strings *)

(** The code units of an ASCII literal. *)
Fixpoint js (s : string) : list N :=
  match s with
  | EmptyString => []
  | String a s' => N_of_ascii a :: js s'
  end.

Arguments js : simpl never.

(** JSON source text is written with ['] where the text has a double
    quote: [jsq "{'a':1}"] is the seven code units of [{"a":1}]. *)
Definition requote (c : N) : N := if N.eqb c 39 then 34 else c.
Definition jsq (s : string) : list N := map requote (js s).

Definition str_eqb (a b : list N) : bool := bool_decide (a = b).

(** ** JavaScript values obtained from JSON text *)

(** A number keeps its decimal reading [mantissa * 10 ^ exp10]. *)
Inductive json : Type :=
| JNull
| JBool (b : bool)
| JNumber (mantissa exp10 : Z)
| JString (s : list N)
| JArray (elems : list json)
| JObject (members : list (list N * json)).

(** The Number value of a decimal is [+0] or [-0] exactly when the
    decimal is zero or rounds (to nearest, ties to even) below the
    smallest subnormal [2^-1074], that is when it is at most [2^-1075]. *)
Definition number_is_zero (m e : Z) : bool :=
  (Z.eqb m 0 ||
   (Z.ltb e 0 && Z.leb (Z.abs m * 2 ^ 1075) (10 ^ (- e))))%bool%Z.

(** [ToBoolean]; [None] is [undefined]. *)
Definition truthy (v : option json) : bool :=
  match v with
  | None => false
  | Some JNull => false
  | Some (JBool b) => b
  | Some (JNumber m e) => negb (number_is_zero m e)
  | Some (JString s) => negb (bool_decide (s = []))
  | Some (JArray _) => true
  | Some (JObject _) => true
  end.

Arguments truthy : simpl never.

(** ** Exceptions *)

(** What [catch (err)] can tell apart: [err instanceof Error] with its
    [message], or any other thrown value. *)
Inductive exn : Type :=
| ErrorObj (message : list N)
| NonError.

Inductive completion (A : Type) : Type :=
| Normal (a : A)
| Throw (e : exn).
Arguments Normal {A} a.
Arguments Throw {A} e.

Definition cbind {A B} (m : completion A) (k : A -> completion B) : completion B :=
  match m with
  | Normal a => k a
  | Throw e => Throw e
  end.

Definition try_catch {A} (body : completion A) (handler : exn -> completion A)
  : completion A :=
  match body with
  | Normal a => Normal a
  | Throw e => handler e
  end.

Notation "x <- m ;; k" := (cbind m (fun x => k))
  (at level 100, m at next level, right associativity).

(** ** Property access *)

(** The last binding of a key wins, as in an object built by [JSON.parse]. *)
Fixpoint lookup_member (k : list N) (ms : list (list N * json)) : option json :=
  match ms with
  | [] => None
  | (k', v) :: ms' =>
      match lookup_member k ms' with
      | Some v' => Some v'
      | None => if str_eqb k' k then Some v else None
      end
  end.

(** [v.k] for a property name [k] that no built-in prototype defines and
    that is neither an index nor [length] (the component only reads
    [contents], [type] and [text]): own members of an object,
    [undefined] on every other value, a [TypeError] on [null]. *)
Definition get_prop (k : list N) (v : json) : completion (option json) :=
  match v with
  | JNull => Throw (ErrorObj (js "Cannot read properties of null"))
  | JObject ms => Normal (lookup_member k ms)
  | _ => Normal None
  end.

(** [x === "lit"] *)
Definition strict_eq_string (v : option json) (lit : list N) : bool :=
  match v with
  | Some (JString s) => str_eqb s lit
  | _ => false
  end.

Definition is_array (v : option json) : bool :=
  match v with
  | Some (JArray _) => true
  | _ => false
  end.

Definition array_elems (v : option json) : list json :=
  match v with
  | Some (JArray l) => l
  | _ => []
  end.

(** [Array.prototype.find] with a callback that may throw. *)
Fixpoint array_find (p : json -> completion bool) (l : list json)
  : completion (option json) :=
  match l with
  | [] => Normal None
  | c :: l' =>
      b <- p c ;;
      if b then Normal (Some c) else array_find p l'
  end.

(** ** Tool descriptors *)

(** [_meta.ui] of a tool, as [UIResourceMeta] declares it. *)
Record UiMeta := {
  resourceUri : option (list N);
  permissions : option (list (list N * json));
  csp : option (list N);
}.

Record Meta := { ui : option UiMeta }.

Record Tool := {
  name : list N;
  description : option (list N);
  meta : option Meta;
}.

(** [tool._meta?.ui] *)
Definition tool_ui (t : Tool) : option UiMeta :=
  match meta t with
  | Some m => ui m
  | None => None
  end.

(** A string-or-undefined used as a condition. *)
Definition truthy_str (o : option (list N)) : bool :=
  match o with
  | Some (_ :: _) => true
  | _ => false
  end.

(** ** Imported functions

    [JSON.parse] is the built-in ([None] when it throws a [SyntaxError]);
    [getToolUiResourceUri] and [buildAllowAttribute] come from
    [@modelcontextprotocol/ext-apps/app-bridge].  The components are
    verified for every implementation of these. *)
Class Imports := {
  JSON_parse : list N -> option json;
  getToolUiResourceUri : Tool -> option (list N);
  buildAllowAttribute : option (list (list N * json)) -> list N;
}.

Section ContentResolution.
Context `{Imports}.

(** [(c) => c.type === "text" && c.text], as [find] tests it. *)
Definition is_text_entry (c : json) : completion bool :=
  ty <- get_prop (js "type") c ;;
  if strict_eq_string ty (js "text")
  then tx <- get_prop (js "text") c ;; Normal (truthy tx)
  else Normal false.

(** The body of the inner [try] of [setupApp] (lines 106-116); its
    result is the value [htmlContent] holds when the block completes. *)
Definition parse_content (resourceContent : list N) : completion json :=
  parsed <- match JSON_parse resourceContent with
            | Some v => Normal v
            | None => Throw (ErrorObj (js "Unexpected token"))
            end ;;
  contents <- get_prop (js "contents") parsed ;;
  if (truthy contents && is_array contents)%bool then
    textContent <- array_find is_text_entry (array_elems contents) ;;
    match textContent with
    | None => Normal (JString resourceContent)
    | Some c =>
        tx <- get_prop (js "text") c ;;
        match tx with
        | Some v => if truthy tx then Normal v else Normal (JString resourceContent)
        | None => Normal (JString resourceContent)
        end
    end
  else Normal (JString resourceContent).

(** [let htmlContent = resourceContent; try { ... } catch { }]
    (lines 104-119): the value later passed to [iframeDoc.write]. *)
Definition resolveContent (resourceContent : list N) : completion json :=
  try_catch (parse_content resourceContent)
            (fun _ => Normal (JString resourceContent)).

End ContentResolution.

(** ** AppRenderer: props, hook state, observable calls *)

Record Props := {
  tool : Tool;
  mcpClient : option nat;      (* identity of the [Client] object, or [null] *)
  onReadResource : nat;        (* identity of the callback *)
  resourceContent : list N;
}.

(** Calls the component makes on its collaborators, newest first in the
    log.  A bridge is named by the order of its construction. *)
Inductive Action : Type :=
| ReadResource (callback : nat) (uri : list N)
| NewAppBridge (b : nat) (client : nat) (dark : bool)
| DocWrite (b : nat) (htmlContent : json)
| ListenLoad (b : nat)
| NewTransport (b : nat)
| Connect (b : nat)
| Close (b : nat)
| ConsoleLog
| ConsoleError.

(** Where the [setupApp] call that constructed a bridge stands. *)
Inductive Pc : Type :=
| Running        (* executing, no [await] reached yet *)
| AwaitLoad      (* suspended at [await new Promise (load)] *)
| AwaitConnect   (* suspended at [await bridge.connect(transport)] *)
| Connected      (* returned normally: connect resolved *)
| Failed.        (* left through [catch] *)

Inductive Phase : Type :=
| Initial
| Mounted (p : Props)
| Unmounted.

Record State := {
  phase : Phase;
  loading : bool;                   (* useState(true) *)
  error : option (list N);          (* useState(null) *)
  initialized : bool;               (* useState(false) *)
  bridgeRef : option nat;           (* bridgeRef.current *)
  iframeRef : bool;                 (* iframeRef.current is an element *)
  cleanup : option (option nat);    (* the pending cleanup of the setup
                                       effect and the [bridge] variable it
                                       closes over *)
  sessions : list Pc;               (* one entry per constructed bridge *)
  log : list Action;
}.

Definition init : State :=
  {| phase := Initial; loading := true; error := None; initialized := false;
     bridgeRef := None; iframeRef := false; cleanup := None;
     sessions := []; log := [] |}.

Definition with_phase (v : Phase) (s : State) : State :=
  {| phase := v; loading := loading s; error := error s;
     initialized := initialized s; bridgeRef := bridgeRef s;
     iframeRef := iframeRef s; cleanup := cleanup s;
     sessions := sessions s; log := log s |}.

Definition with_loading (v : bool) (s : State) : State :=
  {| phase := phase s; loading := v; error := error s;
     initialized := initialized s; bridgeRef := bridgeRef s;
     iframeRef := iframeRef s; cleanup := cleanup s;
     sessions := sessions s; log := log s |}.

Definition with_error (v : option (list N)) (s : State) : State :=
  {| phase := phase s; loading := loading s; error := v;
     initialized := initialized s; bridgeRef := bridgeRef s;
     iframeRef := iframeRef s; cleanup := cleanup s;
     sessions := sessions s; log := log s |}.

Definition with_initialized (v : bool) (s : State) : State :=
  {| phase := phase s; loading := loading s; error := error s;
     initialized := v; bridgeRef := bridgeRef s;
     iframeRef := iframeRef s; cleanup := cleanup s;
     sessions := sessions s; log := log s |}.

Definition with_bridgeRef (v : option nat) (s : State) : State :=
  {| phase := phase s; loading := loading s; error := error s;
     initialized := initialized s; bridgeRef := v;
     iframeRef := iframeRef s; cleanup := cleanup s;
     sessions := sessions s; log := log s |}.

Definition with_iframeRef (v : bool) (s : State) : State :=
  {| phase := phase s; loading := loading s; error := error s;
     initialized := initialized s; bridgeRef := bridgeRef s;
     iframeRef := v; cleanup := cleanup s;
     sessions := sessions s; log := log s |}.

Definition with_cleanup (v : option (option nat)) (s : State) : State :=
  {| phase := phase s; loading := loading s; error := error s;
     initialized := initialized s; bridgeRef := bridgeRef s;
     iframeRef := iframeRef s; cleanup := v;
     sessions := sessions s; log := log s |}.

Definition with_sessions (v : list Pc) (s : State) : State :=
  {| phase := phase s; loading := loading s; error := error s;
     initialized := initialized s; bridgeRef := bridgeRef s;
     iframeRef := iframeRef s; cleanup := cleanup s;
     sessions := v; log := log s |}.

Definition emit (a : Action) (s : State) : State :=
  {| phase := phase s; loading := loading s; error := error s;
     initialized := initialized s; bridgeRef := bridgeRef s;
     iframeRef := iframeRef s; cleanup := cleanup s;
     sessions := sessions s; log := a :: log s |}.

Definition is_unmounted (s : State) : bool :=
  match phase s with
  | Unmounted => true
  | _ => false
  end.

(** The [useState] setters: React drops updates to a component that has
    been unmounted. *)
Definition setLoading (v : bool) (s : State) : State :=
  if is_unmounted s then s else with_loading v s.
Definition setError (v : option (list N)) (s : State) : State :=
  if is_unmounted s then s else with_error v s.
Definition setInitialized (v : bool) (s : State) : State :=
  if is_unmounted s then s else with_initialized v s.

Definition set_pc (b : nat) (pc : Pc) (s : State) : State :=
  with_sessions (<[b := pc]> (sessions s)) s.

Definition pc_of (b : nat) (s : State) : option Pc := sessions s !! b.

Definition pc_eqb (x y : Pc) : bool :=
  match x, y with
  | Running, Running | AwaitLoad, AwaitLoad | AwaitConnect, AwaitConnect
  | Connected, Connected | Failed, Failed => true
  | _, _ => false
  end.

Definition pc_is (b : nat) (pc : Pc) (s : State) : bool :=
  match pc_of b s with
  | Some pc' => pc_eqb pc' pc
  | None => false
  end.

(** ** Stateful code that may throw *)

Definition M (A : Type) : Type := State -> State * completion A.

Definition ret {A} (a : A) : M A := fun s => (s, Normal a).
Definition throw {A} (e : exn) : M A := fun s => (s, Throw e).
Definition bind {A B} (m : M A) (k : A -> M B) : M B :=
  fun s => match m s with
           | (s', Normal a) => k a s'
           | (s', Throw e) => (s', Throw e)
           end.
Definition modify (f : State -> State) : M unit := fun s => (f s, Normal tt).

(** [try { body } catch (err) { handler }] *)
Definition try_catch_M {A} (body : M A) (handler : exn -> M A) : M A :=
  fun s => match body s with
           | (s', Normal a) => (s', Normal a)
           | (s', Throw e) => handler e s'
           end.

Notation "x <~ m ;; k" := (bind m (fun x => k))
  (at level 100, m at next level, right associativity).
Notation "m ;;; k" := (bind m (fun _ => k))
  (at level 100, right associativity).

Definition lift {A} (c : completion A) : M A := fun s => (s, c).

(** A call into a library whose outcome the environment decides. *)
Definition call (outcome : option exn) : M unit :=
  match outcome with
  | None => ret tt
  | Some e => throw e
  end.

(** ** AppRenderer: effects and callbacks *)

(** What the environment decides while [setupApp] runs up to its first
    [await]. *)
Record SetupEnv := {
  dark : bool;                       (* documentElement has class "dark" *)
  construct_result : option exn;     (* new AppBridge(...) *)
  has_document : bool;               (* contentDocument || contentWindow?.document *)
  write_result : option exn;         (* iframeDoc.open(); write(...); close() *)
  has_window : bool;                 (* iframe.contentWindow in the Promise executor *)
}.

(** What it decides when the load promise has resolved. *)
Record LoadEnv := {
  window_after_load : bool;          (* iframe.contentWindow *)
  transport_result : option exn;     (* new PostMessageTransport(...) *)
}.

Record CommitEnv := {
  setup_env : SetupEnv;
  close_result : option exn;         (* how the promise of bridge.close() settles *)
}.

Section Renderer.
Context `{Imports}.

(** [bridge.oninitialized] (lines 85-89) *)
Definition on_initialized (s : State) : State :=
  setLoading false (setInitialized true (emit ConsoleLog s)).

(** [bridge.onerror] (lines 91-94): [error.message || "An error occurred"] *)
Definition on_error (message : list N) (s : State) : State :=
  setError (Some (match message with
                  | [] => js "An error occurred"
                  | _ :: _ => message
                  end))
           (emit ConsoleError s).

(** [err instanceof Error ? err.message : "Failed to set up app"] *)
Definition error_message_of (err : exn) : list N :=
  match err with
  | ErrorObj message => message
  | NonError => js "Failed to set up app"
  end.

(** [catch (err)] of [setupApp] (lines 151-155).  [bridge] is the
    value of the local variable of that name; the session it names,
    if any, has ended in failure. *)
Definition catch_setup (bridge : option nat) (err : exn) : M unit :=
  modify (fun s =>
    let s := emit ConsoleError s in
    let s := setError (Some (error_message_of err)) s in
    let s := setLoading false s in
    match bridge with
    | Some b => set_pc b Failed s
    | None => s
    end).

(** [bridge = new AppBridge(mcpClient, ...)] (lines 67-82) *)
Definition new_AppBridge (env : SetupEnv) (client : nat) : M nat :=
  call (construct_result env) ;;;
  fun s =>
    let b := length (sessions s) in
    (emit (NewAppBridge b client (dark env))
       (with_cleanup (Some (Some b))
          (with_sessions (sessions s ++ [Running]) s)),
     Normal b).

(** The local variable [bridge] of the effect being run. *)
Definition current_bridge (s : State) : option nat :=
  match cleanup s with
  | Some bridge => bridge
  | None => None
  end.

(** The [try] block of [setupApp] from its start to the first [await]
    (lines 66-135). *)
Definition setupApp_body (env : SetupEnv) (client : nat) (content : list N)
  : M unit :=
  b <~ new_AppBridge env client ;;
  (if has_document env then ret tt
   else throw (ErrorObj (js "Could not access iframe document"))) ;;;
  htmlContent <~ lift (resolveContent content) ;;
  call (write_result env) ;;;
  modify (emit (DocWrite b htmlContent)) ;;;
  (if has_window env then modify (emit (ListenLoad b)) else ret tt) ;;;
  modify (set_pc b AwaitLoad).

Definition setupApp (env : SetupEnv) (client : nat) (content : list N) : M unit :=
  try_catch_M (setupApp_body env client content)
              (fun err s => catch_setup (current_bridge s) err s).

(** The [try] block resumed after the load promise (lines 137-148). *)
Definition after_load_body (b : nat) (env : LoadEnv) : M unit :=
  (if window_after_load env then ret tt
   else throw (ErrorObj (js "Iframe contentWindow not available"))) ;;;
  call (transport_result env) ;;;
  modify (emit (NewTransport b)) ;;;
  modify (emit (Connect b)) ;;;
  modify (set_pc b AwaitConnect).

Definition setupApp_after_load (b : nat) (env : LoadEnv) : M unit :=
  try_catch_M (after_load_body b env) (catch_setup (Some b)).

(** The [try] block resumed when [bridge.connect(transport)] settles
    (lines 148-150). *)
Definition after_connect_body (b : nat) (result : option exn) : M unit :=
  call result ;;;
  modify (with_bridgeRef (Some b)) ;;;
  modify (set_pc b Connected).

Definition setupApp_after_connect (b : nat) (result : option exn) : M unit :=
  try_catch_M (after_connect_body b result) (catch_setup (Some b)).

(** The resource-fetch effect (lines 46-52). *)
Definition fetch_effect (p : Props) (s : State) : State :=
  match getToolUiResourceUri (tool p) with
  | Some (c :: uri) =>
      emit (ReadResource (onReadResource p) (c :: uri))
        (setError None (setLoading true s))
  | _ => s
  end.

(** The setup effect (lines 55-159): the guard, then
    [let bridge = null; ...; setupApp(); return cleanup]. *)
Definition setup_effect (env : SetupEnv) (p : Props) (s : State) : State :=
  match resourceContent p, iframeRef s, mcpClient p with
  | _ :: _, true, Some client =>
      fst (setupApp env client (resourceContent p) (with_cleanup (Some None) s))
  | _, _, _ => with_cleanup None s
  end.

(** The cleanup returned by the setup effect (lines 161-167).
    [close()] is asynchronous: its failure is a rejected promise, which
    [.catch(console.error)] consumes. *)
Definition run_cleanup (close : option exn) (s : State) : State :=
  match cleanup s with
  | None => s
  | Some bridge =>
      let s := match bridge with
               | Some b =>
                   let s := emit (Close b) s in
                   match close with
                   | Some _ => emit ConsoleError s
                   | None => s
                   end
               | None => s
               end in
      with_cleanup None (setInitialized false (with_bridgeRef None s))
  end.

Definition fetch_deps (p : Props) : option (list N) * nat :=
  (getToolUiResourceUri (tool p), onReadResource p).

Definition setup_deps (p : Props) : list N * option nat :=
  (resourceContent p, mcpClient p).

(** React commits a render with props [p]: the iframe ref follows the
    rendered tree, the cleanups of the effects whose dependencies
    changed run, then those effects run in source order. *)
Definition commit (env : CommitEnv) (p : Props) (s : State) : State :=
  let attach s :=
    with_iframeRef (truthy_str (getToolUiResourceUri (tool p)))
      (with_phase (Mounted p) s) in
  match phase s with
  | Unmounted => s
  | Initial => setup_effect (setup_env env) p (fetch_effect p (attach s))
  | Mounted p0 =>
      let s := attach s in
      let fetch_changed := negb (bool_decide (fetch_deps p0 = fetch_deps p)) in
      let setup_changed := negb (bool_decide (setup_deps p0 = setup_deps p)) in
      let s := if setup_changed then run_cleanup (close_result env) s else s in
      let s := if fetch_changed then fetch_effect p s else s in
      if setup_changed then setup_effect (setup_env env) p s else s
  end.

Definition unmount (close : option exn) (s : State) : State :=
  match phase s with
  | Mounted _ => with_iframeRef false (with_phase Unmounted (run_cleanup close s))
  | _ => s
  end.

(** ** AppRenderer: events and executions *)

Inductive Event : Type :=
| Commit (p : Props) (env : CommitEnv)
| Unmount (close : option exn)
| LoadSettled (b : nat) (env : LoadEnv)
| ConnectSettled (b : nat) (result : option exn)
| BridgeInitialized (b : nat)
| BridgeError (b : nat) (message : list N).

Definition step (e : Event) (s : State) : State :=
  match e with
  | Commit p env => commit env p s
  | Unmount close => unmount close s
  | LoadSettled b env =>
      if pc_is b AwaitLoad s then fst (setupApp_after_load b env s) else s
  | ConnectSettled b result =>
      if pc_is b AwaitConnect s then fst (setupApp_after_connect b result s) else s
  | BridgeInitialized b =>
      if bool_decide (b < length (sessions s))%nat then on_initialized s else s
  | BridgeError b message =>
      if bool_decide (b < length (sessions s))%nat then on_error message s else s
  end.

(** When an event can occur.  A promise settles only while [setupApp]
    awaits it; a bridge calls back only once it has been constructed,
    which is when both handlers are assigned (lines 85-94).  The
    component puts no other condition on either callback: neither is
    detached when the bridge is closed or its setup has failed. *)
Definition enabled (e : Event) (s : State) : bool :=
  match e with
  | Commit _ _ => negb (is_unmounted s)
  | Unmount _ => match phase s with Mounted _ => true | _ => false end
  | LoadSettled b _ => pc_is b AwaitLoad s
  | ConnectSettled b _ => pc_is b AwaitConnect s
  | BridgeInitialized b => bool_decide (b < length (sessions s))%nat
  | BridgeError b _ => bool_decide (b < length (sessions s))%nat
  end.

Fixpoint run (es : list Event) (s : State) : State :=
  match es with
  | [] => s
  | e :: es' => run es' (step e s)
  end.

Fixpoint admissible (es : list Event) (s : State) : bool :=
  match es with
  | [] => true
  | e :: es' => enabled e s && admissible es' (step e s)
  end.

Inductive reachable : State -> Prop :=
| reachable_init : reachable init
| reachable_step s e :
    reachable s -> enabled e s = true -> reachable (step e s).

(** ** AppRenderer: what is rendered (lines 170-218) *)

Record Iframe := {
  sandbox : list N;
  allow : list N;
  display : list N;
  title : list N;
}.

Inductive View : Type :=
| NoResourceAlert (text : list N)
| AppView (loading_alert : bool) (error_alert : option (list N))
          (iframe : Iframe) (connected_note : option (list N)).

Definition render (p : Props) (s : State) : View :=
  let permissions := match tool_ui (tool p) with
                     | Some u => permissions u
                     | None => None
                     end in
  let allowAttribute := buildAllowAttribute permissions in
  if truthy_str (getToolUiResourceUri (tool p)) then
    AppView (loading s)
            (match error s with
             | Some (c :: m) => Some (c :: m)
             | _ => None
             end)
            {| sandbox := js "allow-scripts allow-same-origin";
               allow := allowAttribute;
               display := if loading s then js "none" else js "block";
               title := js "MCP App: " ++ name (tool p) |}
            (if initialized s then Some (name (tool p)) else None)
  else NoResourceAlert (js "No UI resource URI found in tool metadata").

Definition view (s : State) : option View :=
  match phase s with
  | Mounted p => Some (render p s)
  | _ => None
  end.

End Renderer.

(** ** AppsTab *)

Record TabProps := {
  tools : list Tool;
  tab_mcpClient : option nat;
  tab_onReadResource : nat;
  resourceContentMap : gmap (list N) (list N);
}.

Record TabState := {
  appTools : list Tool;              (* useState([]) *)
  selectedTool : option Tool;        (* useState(null) *)
}.

Definition tab_init : TabState := {| appTools := []; selectedTool := None |}.

(** [tool._meta?.ui?.resourceUri] *)
Definition declared_uri (t : Tool) : option (list N) :=
  match tool_ui t with
  | Some u => resourceUri u
  | None => None
  end.

(** [hasUIMetadata]: [!!meta?.ui?.resourceUri] *)
Definition hasUIMetadata (t : Tool) : bool := truthy_str (declared_uri t).

(** [x || ""] *)
Definition or_empty (o : option (list N)) : list N :=
  match o with
  | Some (c :: s) => c :: s
  | _ => []
  end.

(** The effect on [tools, selectedTool]: filter, then reset a selection
    whose name is no longer listed. *)
Definition filter_effect (tp : TabProps) (st : TabState) : TabState :=
  let filtered := List.filter hasUIMetadata (tools tp) in
  let st := {| appTools := filtered; selectedTool := selectedTool st |} in
  match selectedTool st with
  | Some sel =>
      match List.find (fun t => str_eqb (name t) (name sel)) filtered with
      | None => {| appTools := appTools st; selectedTool := None |}
      | Some _ => st
      end
  | None => st
  end.

(** [onClick={() => setSelectedTool(tool)}] on a listed card *)
Definition select_tool (t : Tool) (st : TabState) : TabState :=
  {| appTools := appTools st; selectedTool := Some t |}.

(** [handleCloseApp] *)
Definition handleCloseApp (st : TabState) : TabState :=
  {| appTools := appTools st; selectedTool := None |}.

(** The props of the [<AppRenderer>] element, when one is rendered.
    [resourceContentMap[uri]] is read as a lookup among the own
    properties of the object; a URI that names a property which the
    object inherits from its prototype (["constructor"], say) is outside
    this reading. *)
Definition renderer_props (tp : TabProps) (st : TabState) : option Props :=
  match selectedTool st with
  | Some t =>
      Some {| tool := t;
              mcpClient := tab_mcpClient tp;
              onReadResource := tab_onReadResource tp;
              resourceContent :=
                or_empty (resourceContentMap tp !! or_empty (declared_uri t)) |}
  | None => None
  end.

Section Reconciliation.
Context `{Imports}.

(** What React does to the renderer instance between two renders of
    the tab: the element has no key, so an instance that stays is
    updated in place; one that is no longer rendered is unmounted. *)
Definition child_event (before after : option Props) (env : CommitEnv)
  : option Event :=
  match before, after with
  | _, Some p => Some (Commit p env)
  | Some _, None => Some (Unmount (close_result env))
  | None, None => None
  end.
End Reconciliation.

(** ** A reference [JSON.parse]

    The JSON grammar of ECMA-404 as [JSON.parse] accepts it: a lexer that
    consumes one code unit at a time, and a pushdown recogniser over the
    tokens.  Both are structurally recursive on their input. *)

Inductive token : Type :=
| TLBrace | TRBrace | TLBracket | TRBracket | TColon | TComma
| TString (s : list N)
| TNumber (m e : Z)
| TTrue | TFalse | TNull.

Inductive nphase : Type :=
| NSign | NZero | NInt | NDot | NFrac | NE | NESign | NExp.

Inductive lstate : Type :=
| LIdle
| LLit (rest : list N) (t : token)
| LStr (acc : list N)
| LEsc (acc : list N)
| LUni (acc : list N) (pending : nat) (v : N)
| LNum (ph : nphase) (neg : bool) (m fd : Z) (eneg : bool) (ex : Z).

Definition digit_of (c : N) : option Z :=
  if (N.leb 48 c && N.leb c 57)%bool then Some (Z.of_N c - 48)%Z else None.

Definition hex_of (c : N) : option N :=
  if (N.leb 48 c && N.leb c 57)%bool then Some (c - 48)
  else if (N.leb 97 c && N.leb c 102)%bool then Some (c - 87)
  else if (N.leb 65 c && N.leb c 70)%bool then Some (c - 55)
  else None.

Definition number_token (neg : bool) (m fd : Z) (eneg : bool) (ex : Z) : token :=
  TNumber (if neg then - m else m)%Z ((if eneg then - ex else ex) - fd)%Z.

Definition lex_idle (c : N) : option (list token * lstate) :=
  if (N.eqb c 32 || N.eqb c 9 || N.eqb c 10 || N.eqb c 13)%bool then Some ([], LIdle)
  else if N.eqb c 123 then Some ([TLBrace], LIdle)
  else if N.eqb c 125 then Some ([TRBrace], LIdle)
  else if N.eqb c 91 then Some ([TLBracket], LIdle)
  else if N.eqb c 93 then Some ([TRBracket], LIdle)
  else if N.eqb c 58 then Some ([TColon], LIdle)
  else if N.eqb c 44 then Some ([TComma], LIdle)
  else if N.eqb c 34 then Some ([], LStr [])
  else if N.eqb c 45 then Some ([], LNum NSign true 0 0 false 0)
  else if N.eqb c 48 then Some ([], LNum NZero false 0 0 false 0)
  else if N.eqb c 116 then Some ([], LLit (js "rue") TTrue)
  else if N.eqb c 102 then Some ([], LLit (js "alse") TFalse)
  else if N.eqb c 110 then Some ([], LLit (js "ull") TNull)
  else match digit_of c with
       | Some d => Some ([], LNum NInt false d 0 false 0)
       | None => None
       end.

(** A number ends at the first code unit that cannot extend it; that
    unit is then read in the idle state. *)
Definition lex_number_end (neg : bool) (m fd : Z) (eneg : bool) (ex : Z) (c : N)
  : option (list token * lstate) :=
  match lex_idle c with
  | Some (ts, st) => Some (number_token neg m fd eneg ex :: ts, st)
  | None => None
  end.

Definition is_e (c : N) : bool := (N.eqb c 101 || N.eqb c 69)%bool.

Definition lex_number (ph : nphase) (neg : bool) (m fd : Z) (eneg : bool) (ex : Z)
    (c : N) : option (list token * lstate) :=
  match ph, digit_of c with
  | NSign, Some d =>
      Some ([], LNum (if Z.eqb d 0 then NZero else NInt) neg d fd eneg ex)
  | NSign, None => None
  | NZero, Some _ => None
  | NInt, Some d => Some ([], LNum NInt neg (m * 10 + d)%Z fd eneg ex)
  | NDot, Some d => Some ([], LNum NFrac neg (m * 10 + d)%Z (fd + 1)%Z eneg ex)
  | NDot, None => None
  | NFrac, Some d => Some ([], LNum NFrac neg (m * 10 + d)%Z (fd + 1)%Z eneg ex)
  | NE, Some d => Some ([], LNum NExp neg m fd eneg d)
  | NE, None =>
      if N.eqb c 43 then Some ([], LNum NESign neg m fd false ex)
      else if N.eqb c 45 then Some ([], LNum NESign neg m fd true ex)
      else None
  | NESign, Some d => Some ([], LNum NExp neg m fd eneg d)
  | NESign, None => None
  | NExp, Some d => Some ([], LNum NExp neg m fd eneg (ex * 10 + d)%Z)
  | NExp, None => lex_number_end neg m fd eneg ex c
  | (NZero | NInt), None =>
      if N.eqb c 46 then Some ([], LNum NDot neg m fd eneg ex)
      else if is_e c then Some ([], LNum NE neg m fd eneg ex)
      else lex_number_end neg m fd eneg ex c
  | NFrac, None =>
      if is_e c then Some ([], LNum NE neg m fd eneg ex)
      else lex_number_end neg m fd eneg ex c
  end.

Definition lex_escape (acc : list N) (c : N) : option (list token * lstate) :=
  if N.eqb c 34 then Some ([], LStr (34 :: acc))
  else if N.eqb c 92 then Some ([], LStr (92 :: acc))
  else if N.eqb c 47 then Some ([], LStr (47 :: acc))
  else if N.eqb c 98 then Some ([], LStr (8 :: acc))
  else if N.eqb c 102 then Some ([], LStr (12 :: acc))
  else if N.eqb c 110 then Some ([], LStr (10 :: acc))
  else if N.eqb c 114 then Some ([], LStr (13 :: acc))
  else if N.eqb c 116 then Some ([], LStr (9 :: acc))
  else if N.eqb c 117 then Some ([], LUni acc 3 0)
  else None.

Definition lex_step (st : lstate) (c : N) : option (list token * lstate) :=
  match st with
  | LIdle => lex_idle c
  | LLit [] _ => None
  | LLit [x] t => if N.eqb c x then Some ([t], LIdle) else None
  | LLit (x :: rest) t => if N.eqb c x then Some ([], LLit rest t) else None
  | LStr acc =>
      if N.eqb c 34 then Some ([TString (rev acc)], LIdle)
      else if N.eqb c 92 then Some ([], LEsc acc)
      else if N.ltb c 32 then None
      else Some ([], LStr (c :: acc))
  | LEsc acc => lex_escape acc c
  | LUni acc pending v =>
      match hex_of c, pending with
      | Some h, O => Some ([], LStr ((v * 16 + h) :: acc))
      | Some h, S n => Some ([], LUni acc n (v * 16 + h))
      | None, _ => None
      end
  | LNum ph neg m fd eneg ex => lex_number ph neg m fd eneg ex c
  end.

Definition lex_end (st : lstate) : option (list token) :=
  match st with
  | LIdle => Some []
  | LNum (NZero | NInt | NFrac | NExp) neg m fd eneg ex =>
      Some [number_token neg m fd eneg ex]
  | _ => None
  end.

Fixpoint lex (st : lstate) (s : list N) : option (list token) :=
  match s with
  | [] => lex_end st
  | c :: s' =>
      match lex_step st c with
      | Some (ts, st') =>
          match lex st' s' with
          | Some ts' => Some (ts ++ ts')
          | None => None
          end
      | None => None
      end
  end.

(** A container under construction that waits for its next value. *)
Inductive frame : Type :=
| FArray (acc : list json)
| FObject (acc : list (list N * json)) (key : list N).

Inductive pmode : Type :=
| PValue
| PArrayStart
| PArrayNext (acc : list json)
| PObjectStart
| PObjectKey (acc : list (list N * json))
| PObjectColon (acc : list (list N * json)) (key : list N)
| PObjectNext (acc : list (list N * json))
| PDone (v : json).

Definition deliver (v : json) (stack : list frame) : pmode * list frame :=
  match stack with
  | [] => (PDone v, [])
  | FArray acc :: stack' => (PArrayNext (v :: acc), stack')
  | FObject acc key :: stack' => (PObjectNext ((key, v) :: acc), stack')
  end.

Definition parse_value (t : token) (stack : list frame)
  : option (pmode * list frame) :=
  match t with
  | TLBracket => Some (PArrayStart, stack)
  | TLBrace => Some (PObjectStart, stack)
  | TString s => Some (deliver (JString s) stack)
  | TNumber m e => Some (deliver (JNumber m e) stack)
  | TTrue => Some (deliver (JBool true) stack)
  | TFalse => Some (deliver (JBool false) stack)
  | TNull => Some (deliver JNull stack)
  | _ => None
  end.

Definition parse_step (mode : pmode) (stack : list frame) (t : token)
  : option (pmode * list frame) :=
  match mode, t with
  | PValue, _ => parse_value t stack
  | PArrayStart, TRBracket => Some (deliver (JArray []) stack)
  | PArrayStart, _ => parse_value t (FArray [] :: stack)
  | PArrayNext acc, TComma => Some (PValue, FArray acc :: stack)
  | PArrayNext acc, TRBracket => Some (deliver (JArray (rev acc)) stack)
  | PObjectStart, TRBrace => Some (deliver (JObject []) stack)
  | PObjectStart, TString k => Some (PObjectColon [] k, stack)
  | PObjectKey acc, TString k => Some (PObjectColon acc k, stack)
  | PObjectColon acc k, TColon => Some (PValue, FObject acc k :: stack)
  | PObjectNext acc, TComma => Some (PObjectKey acc, stack)
  | PObjectNext acc, TRBrace => Some (deliver (JObject (rev acc)) stack)
  | _, _ => None
  end.

Fixpoint parse_tokens (mode : pmode) (stack : list frame) (ts : list token)
  : option json :=
  match ts with
  | [] => match mode with PDone v => Some v | _ => None end
  | t :: ts' =>
      match parse_step mode stack t with
      | Some (mode', stack') => parse_tokens mode' stack' ts'
      | None => None
      end
  end.

Definition json_parse (text : list N) : option json :=
  match lex LIdle text with
  | Some ts => parse_tokens PValue [] ts
  | None => None
  end.

(** A host to run examples on: the reference parser, a resource URI read
    from [_meta.ui.resourceUri], and an allow-list that names the
    declared permission keys. *)
Definition example_imports : Imports :=
  {| JSON_parse := json_parse;
     getToolUiResourceUri := declared_uri;
     buildAllowAttribute := fun permissions =>
       match permissions with
       | Some ps => concat (map (fun kv => fst kv ++ js "; ") ps)
       | None => []
       end |}.

(** ** Vocabulary of the statements *)

(** [c] is an object whose [type] is the string ["text"]. *)
Definition text_typed (c : json) : bool :=
  match c with
  | JObject ms => strict_eq_string (lookup_member (js "type") ms) (js "text")
  | _ => false
  end.

(** [c.text] of an entry that is not [null]. *)
Definition entry_text (c : json) : option json :=
  match c with
  | JObject ms => lookup_member (js "text") ms
  | _ => None
  end.

(** The entries [find] stops at: type ["text"] and a truthy [text]. *)
Definition selectable (c : json) : bool := text_typed c && truthy (entry_text c).

(** The [contents] list of an envelope. *)
Definition envelope_contents (parsed : json) : option (list json) :=
  match parsed with
  | JObject ms =>
      match lookup_member (js "contents") ms with
      | Some (JArray l) => Some l
      | _ => None
      end
  | _ => None
  end.

(** Number of [bridge.close()] calls on bridge [b] in a log. *)
Fixpoint count_close (b : nat) (l : list Action) : nat :=
  match l with
  | [] => 0
  | Close b' :: l' => (if Nat.eqb b b' then 1 else 0) + count_close b l'
  | _ :: l' => count_close b l'
  end.

(** Actions that read a resource, host markup or set up a bridge. *)
Definition is_setup_action (a : Action) : bool :=
  match a with
  | ReadResource _ _ | NewAppBridge _ _ _ | DocWrite _ _ | ListenLoad _
  | NewTransport _ | Connect _ => true
  | Close _ | ConsoleLog | ConsoleError => false
  end.


(** Actions other than constructing or closing a bridge. *)
Definition neutral (a : Action) : bool :=
  match a with
  | Close _ | NewAppBridge _ _ _ => false
  | _ => true
  end.

(** Number of bridges constructed in a log. *)
Fixpoint count_new (l : list Action) : nat :=
  match l with
  | [] => 0
  | NewAppBridge _ _ _ :: l' => S (count_new l')
  | _ :: l' => count_new l'
  end.

(** Read from the newest action back: whenever a bridge was constructed,
    it was named by the number of bridges constructed before it, and
    each of those had been closed once. *)
Fixpoint closed_before_new (l : list Action) : Prop :=
  match l with
  | [] => True
  | NewAppBridge b' _ _ :: older =>
      b' = count_new older /\
      (forall b, (b < b')%nat -> count_close b older = 1%nat) /\
      closed_before_new older
  | _ :: older => closed_before_new older
  end.

Section Invariants.
Context `{Imports}.

Definition no_uri (p : Props) : Prop :=
  truthy_str (getToolUiResourceUri (tool p)) = false.

(** A component that has only ever received tools without a resource
    URI. *)
Definition idle (s : State) : Prop :=
  log s = [] /\ sessions s = [] /\ cleanup s = None /\
  forall p, phase s = Mounted p -> no_uri p.

(** Every constructed bridge has been closed once, except the one the
    pending cleanup still holds, which has not been closed. *)
Definition closes_accounted (s : State) : Prop :=
  (forall b, (b < length (sessions s))%nat -> current_bridge s <> Some b ->
             count_close b (log s) = 1%nat) /\
  (forall b, current_bridge s = Some b ->
             (b < length (sessions s))%nat /\ count_close b (log s) = 0%nat) /\
  (forall b, (length (sessions s) <= b)%nat -> count_close b (log s) = 0%nat) /\
  count_new (log s) = length (sessions s) /\
  closed_before_new (log s) /\
  (phase s = Initial -> cleanup s = None).

(** Whether each [initialized] callback of a trace comes from a bridge
    whose own [connect] had resolved by then.  When a bridge calls back
    is decided by [AppBridge], which is not part of the component; the
    component registers the handler unconditionally, so this is a
    condition on its environment. *)
Fixpoint handshakes_follow_connect (es : list Event) (s : State) : bool :=
  match es with
  | [] => true
  | e :: es' =>
      match e with
      | BridgeInitialized b => pc_is b Connected s
      | _ => true
      end && handshakes_follow_connect es' (step e s)
  end.
End Invariants.

(** ** Example data *)

(** Bare markup, an envelope around it, an envelope whose only text
    entry is empty, one without a text entry, and an envelope whose text
    is itself an envelope. *)
Definition markup : list N := js "<html>...</html>".
Definition envelope : list N :=
  jsq "{'contents':[{'type':'text','text':'<html>...</html>'}]}".
Definition empty_text_envelope : list N :=
  jsq "{'contents':[{'type':'text','text':''}]}".
Definition second_text_envelope : list N :=
  jsq "{'contents':[{'type':'text'},{'type':'text','text':'<b>'}]}".
Definition blob_envelope : list N :=
  jsq "{'contents':[{'type':'blob','blob':'AAAA'}]}".
Definition inner_envelope : list N :=
  jsq "{'contents':[{'type':'text','text':'<p>hi</p>'}]}".
Definition nested_envelope : list N :=
  jsq "{'contents':[{'type':'text','text':'{\'contents\':[{\'type\':\'text\',\'text\':\'<p>hi</p>\'}]}'}]}".

Definition text_entry (t : list N) : json :=
  JObject [(js "type", JString (js "text")); (js "text", JString t)].

(** Two tools that share one UI resource, and a tool without one. *)
Definition widget_uri : list N := js "ui://tool/widget".

Definition toolA : Tool :=
  {| name := js "A"; description := None;
     meta := Some {| ui := Some {| resourceUri := Some widget_uri;
                                   permissions := None; csp := None |} |} |}.

Definition toolB : Tool :=
  {| name := js "B"; description := None;
     meta := Some {| ui := Some {| resourceUri := Some widget_uri;
                                   permissions := Some [(js "camera", JObject [])];
                                   csp := None |} |} |}.

Definition plain_tool : Tool :=
  {| name := js "plain"; description := None; meta := None |}.

Definition props_of (t : Tool) (content : list N) : Props :=
  {| tool := t; mcpClient := Some 0%nat; onReadResource := 0%nat;
     resourceContent := content |}.

(** An environment in which every library call succeeds. *)
Definition fine : CommitEnv :=
  {| setup_env := {| dark := false; construct_result := None;
                     has_document := true; write_result := None;
                     has_window := true |};
     close_result := None |}.

Definition loaded : LoadEnv :=
  {| window_after_load := true; transport_result := None |}.

(** Tool A is mounted with its content, the iframe loads, the bridge
    connects and the guest completes the handshake. *)
Definition until_ready : list Event :=
  [Commit (props_of toolA envelope) fine; LoadSettled 0 loaded;
   ConnectSettled 0 None; BridgeInitialized 0].

(** The tab lists both tools; the content of their shared resource has
    been read. *)
Definition tab_props : TabProps :=
  {| tools := [toolA; toolB; plain_tool];
     tab_mcpClient := Some 0%nat;
     tab_onReadResource := 0%nat;
     resourceContentMap := {[ widget_uri := envelope ]} |}.

Definition tab_with_A : TabState :=
  {| appTools := [toolA; toolB]; selectedTool := Some toolA |}.

(** The iframe document cannot be accessed. *)
Definition no_document : SetupEnv :=
  {| dark := false; construct_result := None; has_document := false;
     write_result := None; has_window := true |}.

(** The tools list after tool B has been withdrawn, and the tab state
    in which B was selected. *)
Definition tab_props_without_B : TabProps :=
  {| tools := [toolA; plain_tool];
     tab_mcpClient := Some 0%nat;
     tab_onReadResource := 0%nat;
     resourceContentMap := {[ widget_uri := envelope ]} |}.

Definition tab_with_B : TabState :=
  {| appTools := [toolA; toolB]; selectedTool := Some toolB |}.


(** ** Further vocabulary: counting calls, order within a session *)

(** Number of [onReadResource] calls in a log. *)
Fixpoint count_read (l : list Action) : nat :=
  match l with
  | [] => 0
  | ReadResource _ _ :: l' => S (count_read l')
  | _ :: l' => count_read l'
  end.

(** Number of [bridge.connect] calls on bridge [b] in a log. *)
Fixpoint count_connect (b : nat) (l : list Action) : nat :=
  match l with
  | [] => 0
  | Connect b' :: l' => (if Nat.eqb b b' then 1 else 0) + count_connect b l'
  | _ :: l' => count_connect b l'
  end.

(** Read from the newest action back: a bridge is connected directly
    after its transport was created, after its document was written and
    not for a second time; a document is written directly after the
    bridge of its session was constructed. *)
Fixpoint session_order (l : list Action) : Prop :=
  match l with
  | [] => True
  | Connect b :: older =>
      (exists older', older = NewTransport b :: older') /\
      (exists v, In (DocWrite b v) older) /\
      count_connect b older = 0%nat /\
      session_order older
  | DocWrite b _ :: older =>
      (exists client d older', older = NewAppBridge b client d :: older') /\
      session_order older
  | _ :: older => session_order older
  end.

(** Sessions and log agree on who may still connect. *)
Definition sessions_ordered (s : State) : Prop :=
  session_order (log s) /\
  (forall b, pc_of b s = Some AwaitLoad ->
             count_connect b (log s) = 0%nat /\ exists v, In (DocWrite b v) (log s)) /\
  (forall b, (length (sessions s) <= b)%nat -> count_connect b (log s) = 0%nat).

(** Actions that neither connect a bridge nor write a document. *)
Definition quiet (a : Action) : Prop :=
  match a with
  | Connect _ | DocWrite _ _ => False
  | _ => True
  end.

(** The failure with which the first segment of [setupApp] ends, if it
    ends with one: the constructor throws, the iframe document is
    missing, or writing it throws. *)
Definition first_failure (env : SetupEnv) : option exn :=
  match construct_result env with
  | Some err => Some err
  | None =>
      if has_document env then write_result env
      else Some (ErrorObj (js "Could not access iframe document"))
  end.

(** Likewise for the segment that follows the load. *)
Definition load_failure (env : LoadEnv) : option exn :=
  if window_after_load env then transport_result env
  else Some (ErrorObj (js "Iframe contentWindow not available")).

Section EffectTriggers.
Context `{Imports}.

(** Whether a commit with props [p] runs the resource-fetch effect: on
    mount, or when [resourceUri] or [onReadResource] changed. *)
Definition fetch_runs (p : Props) (s : State) : bool :=
  match phase s with
  | Initial => true
  | Mounted p0 => negb (bool_decide (fetch_deps p0 = fetch_deps p))
  | Unmounted => false
  end.

(** Whether it runs the setup effect: on mount, or when
    [resourceContent] or [mcpClient] changed. *)
Definition setup_runs (p : Props) (s : State) : bool :=
  match phase s with
  | Initial => true
  | Mounted p0 => negb (bool_decide (setup_deps p0 = setup_deps p))
  | Unmounted => false
  end.

(** Whether a commit with props [p] starts a setup: the setup effect
    runs and finds content, an iframe and a client. *)
Definition setup_starts (p : Props) (s : State) : bool :=
  setup_runs p s
  && truthy_str (Some (resourceContent p))
  && truthy_str (getToolUiResourceUri (tool p))
  && match mcpClient p with Some _ => true | None => false end.

(** The failure with which the run of [setupApp] that an event starts
    or resumes ends, if it ends with one. *)
Definition failure_of (e : Event) (s : State) : option exn :=
  match e with
  | Commit p env =>
      if setup_starts p s then first_failure (setup_env env) else None
  | LoadSettled b env => if pc_is b AwaitLoad s then load_failure env else None
  | ConnectSettled b result => if pc_is b AwaitConnect s then result else None
  | _ => None
  end.

End EffectTriggers.

(** ** AppsTab: the mounted tab, its events, what it renders *)

(** A mounted tab: the props of its latest render, its hook state, and
    whether the effect on [tools] and [selectedTool] has yet to run for
    that render and state. *)
Record Tab := {
  props_now : TabProps;
  tab_state : TabState;
  effect_due : bool;
}.

(** The first render uses the initial state; the effect runs after it. *)
Definition tab_mount (tp : TabProps) : Tab :=
  {| props_now := tp; tab_state := tab_init; effect_due := true |}.

Inductive TabEvent : Type :=
| TabRender (tp : TabProps)
| TabRerender (client : option nat) (onRead : nat)
              (contents : gmap (list N) (list N))
| TabEffect
| ClickCard (i : nat)
| ClickClose.

(** Whether the effect resets the selection, which changes its
    dependency [selectedTool] and makes it run once more. *)
Definition resets_selection (tp : TabProps) (st : TabState) : bool :=
  match selectedTool st with
  | Some sel =>
      match List.find (fun t => str_eqb (name t) (name sel))
                      (List.filter hasUIMetadata (tools tp)) with
      | None => true
      | Some _ => false
      end
  | None => false
  end.

(** One event.  [TabRender]: the parent renders the tab with a new
    tools array, so the effect is due.  [TabRerender]: it renders the tab
    with the same tools array and other props.  [TabEffect]: the effect
    runs.  [ClickCard i]: a click on the [i]-th card, which calls
    [setSelectedTool(tool)] with the tool shown there; [ClickClose]:
    [handleCloseApp].  A click changes [selectedTool], so the effect is
    due.  Between an event and the run of the effect the tab is rendered
    with the state the event left. *)
Definition tab_step (e : TabEvent) (x : Tab) : Tab :=
  match e with
  | TabRender tp =>
      {| props_now := tp; tab_state := tab_state x; effect_due := true |}
  | TabRerender client onRead contents =>
      {| props_now := {| tools := tools (props_now x);
                         tab_mcpClient := client;
                         tab_onReadResource := onRead;
                         resourceContentMap := contents |};
         tab_state := tab_state x;
         effect_due := effect_due x |}
  | TabEffect =>
      {| props_now := props_now x;
         tab_state := filter_effect (props_now x) (tab_state x);
         effect_due := resets_selection (props_now x) (tab_state x) |}
  | ClickCard i =>
      match appTools (tab_state x) !! i with
      | Some t =>
          {| props_now := props_now x;
             tab_state := select_tool t (tab_state x);
             effect_due := true |}
      | None => x
      end
  | ClickClose =>
      {| props_now := props_now x;
         tab_state := handleCloseApp (tab_state x);
         effect_due := true |}
  end.

Fixpoint tab_run (es : list TabEvent) (x : Tab) : Tab :=
  match es with
  | [] => x
  | e :: es' => tab_run es' (tab_step e x)
  end.

(** The tab is mounted with some props, then driven by events, in any
    order. *)
Inductive tab_reachable : Tab -> Prop :=
| tab_mounted tp : tab_reachable (tab_mount tp)
| tab_stepped x e : tab_reachable x -> tab_reachable (tab_step e x).

Record Card := {
  card_name : list N;
  card_description : option (list N);   (* [tool.description && <p>...] *)
  card_uri : list N;                    (* [meta?.ui?.resourceUri || ""] *)
}.

Definition card_of (t : Tool) : Card :=
  {| card_name := name t;
     card_description := if truthy_str (description t) then description t else None;
     card_uri := or_empty (declared_uri t) |}.

Record TabView := {
  empty_alert : bool;                   (* "No MCP Apps available." *)
  cards : list Card;
  panel : option (list N * Props);      (* heading, [<AppRenderer>] props *)
}.

Definition tab_render (tp : TabProps) (st : TabState) : TabView :=
  let none := Nat.eqb (length (appTools st)) 0 in
  {| empty_alert := none;
     cards := if none then [] else map card_of (appTools st);
     panel := match selectedTool st with
              | Some t =>
                  match renderer_props tp st with
                  | Some p => Some (name t, p)
                  | None => None
                  end
              | None => None
              end |}.

(** What holds of the tab at every moment, and what holds in addition
    once the effect has run for the current tools and selection. *)
Definition tab_invariant (x : Tab) : Prop :=
  Forall (fun t => hasUIMetadata t = true) (appTools (tab_state x)) /\
  (forall sel, selectedTool (tab_state x) = Some sel -> hasUIMetadata sel = true) /\
  (effect_due x = false ->
   appTools (tab_state x) = List.filter hasUIMetadata (tools (props_now x)) /\
   filter_effect (props_now x) (tab_state x) = tab_state x /\
   forall sel, selectedTool (tab_state x) = Some sel ->
     exists t, In t (tools (props_now x)) /\ hasUIMetadata t = true /\
               name t = name sel).

(** * Proof automation *)

(** Unfolds the monad of stateful code. *)
Ltac run_M :=
  unfold setupApp, setupApp_body, setupApp_after_load, after_load_body,
    setupApp_after_connect, after_connect_body, new_AppBridge, catch_setup,
    try_catch_M, bind, call, ret, throw, modify, lift in *.

(** Evaluates field updates and projections, innermost first; meant for a
    state that has been destructed into its fields. *)
Ltac state_norm :=
  cbv [setLoading setError setInitialized set_pc is_unmounted emit
       with_phase with_loading with_error with_initialized with_bridgeRef
       with_iframeRef with_cleanup with_sessions
       phase loading error initialized bridgeRef iframeRef cleanup sessions
       log pc_of current_bridge fst snd] in *.

(** * Content resolution *)

Section ContentResolutionFacts.
Context `{Imports}.

Lemma null_or_not (x : json) : x = JNull \/ x <> JNull.
Proof. destruct x; (by left) || (by right). Qed.

Lemma is_text_entry_null :
  is_text_entry JNull = Throw (ErrorObj (js "Cannot read properties of null")).
Proof. reflexivity. Qed.

Lemma is_text_entry_selectable c :
  c <> JNull -> is_text_entry c = Normal (selectable c).
Proof.
  intros Hc. destruct c; try done; unfold is_text_entry, selectable; simpl.
  destruct (strict_eq_string _ _); reflexivity.
Qed.

Lemma selectable_not_null c : selectable c = true -> c <> JNull.
Proof. by destruct c. Qed.

(** [find] returns the first selectable entry when no [null] precedes it. *)
Lemma array_find_first l1 c l2 :
  Forall (fun x => x <> JNull /\ selectable x = false) l1 ->
  selectable c = true ->
  array_find is_text_entry (l1 ++ c :: l2) = Normal (Some c).
Proof.
  induction 1 as [|x l1 [Hx Hs] _ IH]; intros Hc; simpl.
  - rewrite is_text_entry_selectable by by apply selectable_not_null.
    simpl. by rewrite Hc.
  - rewrite is_text_entry_selectable by done. simpl. rewrite Hs. by apply IH.
Qed.

(** What [find] returned is selectable and nothing before it is. *)
Lemma array_find_some l c :
  array_find is_text_entry l = Normal (Some c) ->
  selectable c = true /\
  exists l1 l2, l = l1 ++ c :: l2 /\ Forall (fun x => selectable x = false) l1.
Proof.
  induction l as [|x l IH]; simpl; [done|].
  destruct (null_or_not x) as [->|Hx]; [done|].
  rewrite is_text_entry_selectable by done. simpl.
  destruct (selectable x) eqn:Hs.
  - intros [= ->]. split; [done|]. by exists [], l.
  - intros Hf. destruct (IH Hf) as (Hc & l1 & l2 & -> & Hall).
    split; [done|]. exists (x :: l1), l2. split; [done|]. by constructor.
Qed.

(** Without a selectable entry [find] finds nothing (or throws at a [null]). *)
Lemma array_find_none l :
  Forall (fun x => selectable x = false) l ->
  forall c, array_find is_text_entry l <> Normal (Some c).
Proof.
  intros Hall c Hf. apply array_find_some in Hf as (Hc & l1 & l2 & -> & _).
  apply Forall_app in Hall as [_ Hall]. inversion Hall; congruence.
Qed.

Lemma get_contents parsed :
  parsed <> JNull ->
  exists contents, get_prop (js "contents") parsed = Normal contents /\
    match envelope_contents parsed with
    | Some l => contents = Some (JArray l)
    | None => is_array contents = false
    end.
Proof.
  intros Hp. destruct parsed; try done; simpl; try by eexists.
  eexists; split; [done|].
  destruct (lookup_member _ _) as [[]|]; done.
Qed.

(** The text of the entry [find] returned is the result. *)
Lemma resolveContent_selected raw parsed l c :
  JSON_parse raw = Some parsed ->
  envelope_contents parsed = Some l ->
  array_find is_text_entry l = Normal (Some c) ->
  exists t, entry_text c = Some t /\ truthy (Some t) = true /\
            resolveContent raw = Normal t.
Proof.
  intros Hp Hl Hf. unfold resolveContent, parse_content. rewrite Hp. simpl.
  assert (parsed <> JNull) as Hn by (by destruct parsed).
  destruct (get_contents parsed Hn) as (contents & -> & Hc).
  rewrite Hl in Hc. subst contents. simpl. rewrite Hf. simpl.
  destruct (array_find_some _ _ Hf) as (Hs & _).
  pose proof (selectable_not_null _ Hs).
  destruct c; try done. simpl.
  unfold selectable in Hs. simpl in Hs.
  apply andb_true_iff in Hs as [_ Ht].
  destruct (lookup_member (js "text") members) as [t|] eqn:Htx; [|done].
  rewrite Ht. by exists t.
Qed.

(** The three ways resolution ends. *)
Lemma resolveContent_cases raw :
  resolveContent raw = Normal (JString raw) \/
  exists parsed l c t,
    JSON_parse raw = Some parsed /\ envelope_contents parsed = Some l /\
    array_find is_text_entry l = Normal (Some c) /\
    entry_text c = Some t /\ truthy (Some t) = true /\
    resolveContent raw = Normal t.
Proof.
  unfold resolveContent, parse_content.
  destruct (JSON_parse raw) as [parsed|]; simpl; [|by left].
  destruct (null_or_not parsed) as [->|Hp]; [by left|].
  destruct (get_contents parsed Hp) as (contents & -> & Hc). simpl.
  destruct (envelope_contents parsed) as [l|] eqn:Hl.
  - subst contents. simpl.
    destruct (array_find is_text_entry l) as [[c|]|e] eqn:Hf; simpl; try by left.
    destruct (array_find_some _ _ Hf) as (Hs & _).
    pose proof (selectable_not_null _ Hs) as Hn.
    destruct c; try done. simpl.
    unfold selectable in Hs. simpl in Hs.
    apply andb_true_iff in Hs as [_ Ht].
    destruct (lookup_member (js "text") members) as [t|] eqn:Htx; [|done].
    rewrite Ht. right. exists parsed, l, (JObject members), t. done.
  - rewrite Hc. rewrite andb_false_r. by left.
Qed.

Lemma resolveContent_not_json raw :
  JSON_parse raw = None -> resolveContent raw = Normal (JString raw).
Proof. intros Hp. unfold resolveContent, parse_content. by rewrite Hp. Qed.

Lemma resolveContent_first raw parsed l1 c l2 t :
  JSON_parse raw = Some parsed ->
  envelope_contents parsed = Some (l1 ++ c :: l2) ->
  Forall (fun x => x <> JNull /\ selectable x = false) l1 ->
  text_typed c = true -> entry_text c = Some t -> truthy (Some t) = true ->
  resolveContent raw = Normal t.
Proof.
  intros Hp Hl Hall Hty Htx Ht.
  unfold resolveContent, parse_content. rewrite Hp. simpl.
  assert (parsed <> JNull) as Hn by (by destruct parsed).
  destruct (get_contents parsed Hn) as (contents & -> & Hc).
  rewrite Hl in Hc. subst contents. simpl.
  rewrite array_find_first; [|done|].
  - simpl. destruct c; try done. simpl in *. by rewrite Htx, Ht.
  - unfold selectable. by rewrite Hty, Htx, Ht.
Qed.

Lemma resolveContent_no_entry raw parsed :
  JSON_parse raw = Some parsed ->
  match envelope_contents parsed with
  | Some l => Forall (fun x => selectable x = false) l
  | None => True
  end ->
  resolveContent raw = Normal (JString raw).
Proof.
  intros Hp Hl.
  destruct (resolveContent_cases raw)
    as [?|(parsed' & l & c & t & Hp' & Hl' & Hf & _)]; [done|].
  rewrite Hp in Hp'. injection Hp' as <-. rewrite Hl' in Hl.
  by destruct (array_find_none _ Hl c).
Qed.

End ContentResolutionFacts.

(** C3 (as amended): for every input string [raw], content resolution
    never raises and returns a value.  If [raw] parses as an envelope
    whose [contents] list has an entry of type ["text"] with a non-empty
    (truthy) [text], preceded by entries that are not [null] and not of
    that kind, the text of this first such entry is returned.  If parsing
    fails, or no entry has type ["text"] and a non-empty text, [raw] is
    returned unchanged. *)
Theorem C3_resolve_first_nonempty_text `{Imports} (raw : list N) :
  (exists v, resolveContent raw = Normal v) /\
  (JSON_parse raw = None -> resolveContent raw = Normal (JString raw)) /\
  (forall parsed l1 c l2 t,
      JSON_parse raw = Some parsed ->
      envelope_contents parsed = Some (l1 ++ c :: l2) ->
      Forall (fun x => x <> JNull /\ selectable x = false) l1 ->
      text_typed c = true -> entry_text c = Some t -> truthy (Some t) = true ->
      resolveContent raw = Normal t) /\
  (forall parsed,
      JSON_parse raw = Some parsed ->
      match envelope_contents parsed with
      | Some l => Forall (fun x => selectable x = false) l
      | None => True
      end ->
      resolveContent raw = Normal (JString raw)).
Proof.
  repeat split.
  - destruct (resolveContent_cases raw) as [->|(? & ? & ? & t & _ & _ & _ & _ & _ & ->)];
      by eexists.
  - apply resolveContent_not_json.
  - intros. by eapply resolveContent_first.
  - intros. by eapply resolveContent_no_entry.
Qed.

Lemma C3_resolve_first_nonempty_text_witness :
  @resolveContent example_imports envelope = Normal (JString markup) /\
  @resolveContent example_imports markup = Normal (JString markup).
Proof.
  destruct (@C3_resolve_first_nonempty_text example_imports envelope)
    as (_ & _ & Hfirst & _).
  destruct (@C3_resolve_first_nonempty_text example_imports markup)
    as (_ & Hraw & _ & _).
  split.
  - apply (Hfirst (JObject [(js "contents", JArray [text_entry markup])])
             [] (text_entry markup) [] (JString markup));
      solve [vm_compute; reflexivity | constructor].
  - apply Hraw. vm_compute. reflexivity.
Defined.

(** The envelope [{"contents":[{"type":"text","text":""}]}] has a first
    entry whose type marks it as text; its text is the empty string, yet
    resolution returns the raw envelope. *)
Lemma C3_first_text_entry_counterexample :
  JSON_parse (Imports := example_imports) empty_text_envelope
    = Some (JObject [(js "contents", JArray [text_entry []])]) /\
  @resolveContent example_imports empty_text_envelope
    = Normal (JString empty_text_envelope) /\
  @resolveContent example_imports empty_text_envelope <> Normal (JString []).
Proof. split; [|split]; vm_compute; [reflexivity|reflexivity|discriminate]. Qed.

(** C8 (as amended): a string is returned unchanged by resolution
    unless it is an envelope whose [contents] list has a selectable entry
    (type ["text"], truthy [text]) - in particular when it is not JSON at
    all.  So resolution is idempotent wherever the resolved markup is not
    itself such an envelope: resolving it again returns it unchanged.
    And for every envelope whose [contents] list has no entry of type
    ["text"], resolving returns the raw input. *)
Theorem C8_resolve_fixed_points `{Imports} (raw : list N) :
  ((forall parsed l,
       JSON_parse raw = Some parsed -> envelope_contents parsed = Some l ->
       Forall (fun x => selectable x = false) l) ->
   resolveContent raw = Normal (JString raw)) /\
  (resolveContent raw <> Normal (JString raw) ->
   exists parsed l c,
     JSON_parse raw = Some parsed /\ envelope_contents parsed = Some l /\
     In c l /\ selectable c = true) /\
  (forall m,
      resolveContent raw = Normal (JString m) ->
      (forall parsed l,
          JSON_parse m = Some parsed -> envelope_contents parsed = Some l ->
          Forall (fun x => selectable x = false) l) ->
      resolveContent m = resolveContent raw) /\
  (forall parsed l,
      JSON_parse raw = Some parsed ->
      envelope_contents parsed = Some l ->
      Forall (fun x => text_typed x = false) l ->
      resolveContent raw = Normal (JString raw)).
Proof.
  assert (forall r,
            (forall parsed l,
                JSON_parse r = Some parsed -> envelope_contents parsed = Some l ->
                Forall (fun x => selectable x = false) l) ->
            resolveContent r = Normal (JString r)) as Hfix.
  { intros r Hr. destruct (JSON_parse r) as [parsed|] eqn:Hp;
      [|by apply resolveContent_not_json].
    apply (resolveContent_no_entry r parsed Hp).
    destruct (envelope_contents parsed) as [l|] eqn:Hl; [|done].
    by apply (Hr parsed l). }
  split; [apply Hfix|]. split; [|split].
  - intros Hne.
    destruct (resolveContent_cases raw)
      as [?|(parsed & l & c & t & Hp & Hl & Hf & _)]; [done|].
    destruct (array_find_some _ _ Hf) as (Hs & l1 & l2 & -> & _).
    exists parsed, (l1 ++ c :: l2), c. repeat apply conj; try done.
    apply in_or_app. right. by left.
  - intros m Hm Hno. rewrite Hm. by apply Hfix.
  - intros parsed l Hp Hl Hall. eapply resolveContent_no_entry; [done|].
    rewrite Hl. eapply Forall_impl; [done|].
    intros x Hx. unfold selectable. by rewrite Hx.
Qed.

Lemma C8_resolve_fixed_points_witness :
  @resolveContent example_imports markup = @resolveContent example_imports envelope /\
  @resolveContent example_imports blob_envelope = Normal (JString blob_envelope).
Proof.
  destruct (@C8_resolve_fixed_points example_imports envelope) as (_ & _ & Hidem & _).
  destruct (@C8_resolve_fixed_points example_imports blob_envelope)
    as (_ & _ & _ & Hblob).
  split.
  - apply Hidem; [vm_compute; reflexivity|].
    intros parsed l Hp. vm_compute in Hp. discriminate.
  - apply (Hblob (JObject [(js "contents",
                            JArray [JObject [(js "type", JString (js "blob"));
                                             (js "blob", JString (js "AAAA"))]])])
                 [JObject [(js "type", JString (js "blob"));
                           (js "blob", JString (js "AAAA"))]]);
      try (vm_compute; reflexivity).
    repeat constructor.
Defined.

(** Resolution is not idempotent: an envelope whose text is itself an
    envelope resolves to the inner envelope, which resolves further. *)
Lemma C8_idempotence_counterexample :
  @resolveContent example_imports nested_envelope = Normal (JString inner_envelope) /\
  @resolveContent example_imports inner_envelope <> Normal (JString inner_envelope).
Proof. split; vm_compute; [reflexivity|discriminate]. Qed.

(** C9: an entry of type ["text"] whose [text] is absent or empty is
    never selected; an envelope all of whose text-typed entries have an
    absent or empty text resolves to the raw string; and the entry that
    is selected is the first whose type is ["text"] and whose text is
    non-empty. *)
Theorem C9_empty_text_never_selected `{Imports} (raw : list N) (parsed : json)
    (l : list json) :
  JSON_parse raw = Some parsed ->
  envelope_contents parsed = Some l ->
  (forall c, text_typed c = true -> truthy (entry_text c) = false ->
             is_text_entry c = Normal false /\
             array_find is_text_entry l <> Normal (Some c)) /\
  ((forall c, In c l -> text_typed c = true -> truthy (entry_text c) = false) ->
   resolveContent raw = Normal (JString raw)) /\
  (forall c, array_find is_text_entry l = Normal (Some c) ->
     text_typed c = true /\ truthy (entry_text c) = true /\
     (exists l1 l2, l = l1 ++ c :: l2 /\
        Forall (fun x => text_typed x = true -> truthy (entry_text x) = false) l1) /\
     (exists t, entry_text c = Some t /\ resolveContent raw = Normal t)) /\
  (forall l1 c l2, l = l1 ++ c :: l2 ->
     Forall (fun x => x <> JNull /\ selectable x = false) l1 ->
     selectable c = true ->
     array_find is_text_entry l = Normal (Some c)).
Proof.
  intros Hp Hl. repeat split.
  - rewrite is_text_entry_selectable by (by destruct c).
    unfold selectable. by rewrite H0, H1.
  - intros Hf. apply array_find_some in Hf as [Hs _].
    unfold selectable in Hs. rewrite H0, H1 in Hs. done.
  - intros Hall. eapply resolveContent_no_entry; [done|]. rewrite Hl.
    apply Forall_forall. intros x Hx. unfold selectable.
    destruct (text_typed x) eqn:Hty; [|done]. simpl.
    apply Hall; [|done]. by apply list_elem_of_In.
  - apply array_find_some in H0 as [Hs _]. unfold selectable in Hs.
    by apply andb_true_iff in Hs as [? _].
  - apply array_find_some in H0 as [Hs _]. unfold selectable in Hs.
    by apply andb_true_iff in Hs as [_ ?].
  - apply array_find_some in H0 as (_ & l1 & l2 & -> & Hall).
    exists l1, l2. split; [done|]. eapply Forall_impl; [done|].
    intros x Hx Hty. unfold selectable in Hx. by rewrite Hty in Hx.
  - destruct (resolveContent_selected raw parsed l c Hp Hl H0) as (t & ? & _ & ?).
    by exists t.
  - intros l1 c l2 -> Hall Hs. by apply array_find_first.
Qed.

Lemma C9_empty_text_never_selected_witness :
  @resolveContent example_imports empty_text_envelope
    = Normal (JString empty_text_envelope) /\
  empty_text_envelope <> [] /\
  @resolveContent example_imports second_text_envelope = Normal (JString (js "<b>")).
Proof.
  destruct (@C9_empty_text_never_selected example_imports empty_text_envelope
              (JObject [(js "contents", JArray [text_entry []])])
              [text_entry []])
    as (_ & Hraw & _); try (vm_compute; reflexivity).
  destruct (@C9_empty_text_never_selected example_imports second_text_envelope
              (JObject [(js "contents",
                         JArray [JObject [(js "type", JString (js "text"))];
                                 text_entry (js "<b>")])])
              [JObject [(js "type", JString (js "text"))]; text_entry (js "<b>")])
    as (_ & _ & Hsel & _); try (vm_compute; reflexivity).
  split; [|split; [done|]].
  - apply Hraw. intros c [<-|[]] _. vm_compute. reflexivity.
  - destruct (Hsel (text_entry (js "<b>"))) as (_ & _ & _ & t & Ht & ->);
      [vm_compute; reflexivity|].
    vm_compute in Ht. by injection Ht as <-.
Defined.

(** * AppRenderer *)

Section RendererFacts.
Context `{Imports}.

Lemma resolveContent_total raw : exists v, resolveContent raw = Normal v.
Proof.
  destruct (resolveContent_cases raw) as [->|(? & ? & ? & t & _ & _ & _ & _ & _ & ->)];
    by eexists.
Qed.

(** Every segment of [setupApp] runs to completion without throwing. *)
Lemma setupApp_returns env client content s :
  exists s', setupApp env client content s = (s', Normal tt).
Proof.
  destruct (resolveContent_total content) as [v Hv].
  run_M. rewrite Hv.
  destruct (construct_result env), (has_document env), (write_result env),
    (has_window env); simpl; by eexists.
Qed.

Lemma setupApp_after_load_returns b env s :
  exists s', setupApp_after_load b env s = (s', Normal tt).
Proof.
  run_M. destruct (window_after_load env), (transport_result env); simpl;
    by eexists.
Qed.

Lemma setupApp_after_connect_returns b result s :
  exists s', setupApp_after_connect b result s = (s', Normal tt).
Proof. run_M. destruct result; simpl; by eexists. Qed.

(** The bodies leave the phase alone. *)
Lemma setupApp_body_phase env client content s :
  phase (fst (setupApp_body env client content s)) = phase s.
Proof.
  destruct (resolveContent_total content) as [v Hv].
  run_M. rewrite Hv.
  destruct (construct_result env), (has_document env), (write_result env),
    (has_window env); reflexivity.
Qed.

Lemma after_load_body_phase b env s :
  phase (fst (after_load_body b env s)) = phase s.
Proof.
  run_M. destruct (window_after_load env), (transport_result env); reflexivity.
Qed.

Lemma after_connect_body_phase b result s :
  phase (fst (after_connect_body b result s)) = phase s.
Proof. run_M. destruct result; reflexivity. Qed.

(** What [catch] leaves behind on a component that is still mounted. *)
Lemma catch_setup_state bridge err s :
  is_unmounted s = false ->
  exists s', catch_setup bridge err s = (s', Normal tt) /\
    error s' = Some (error_message_of err) /\ loading s' = false.
Proof.
  destruct s as [ph ld er ini br ifr cl ss lg]. intros Hm. run_M.
  state_norm. destruct ph; try done; destruct bridge; eexists;
    (split; [reflexivity|]); done.
Qed.

Lemma is_unmounted_phase s s' :
  phase s' = phase s -> is_unmounted s = false -> is_unmounted s' = false.
Proof. unfold is_unmounted. by intros ->. Qed.

End RendererFacts.

(** C6: what the code does with a failure raised while [setupApp] runs
    - in its first segment, after the load promise, or when [connect]
    settles.  Every such failure is caught by its [catch]: the call
    returns normally, and on a component that is still mounted [loading]
    is cleared and [error] holds the message of the failure, or
    ["Failed to set up app"] for a thrown value that is not an [Error].
    An inaccessible iframe document and a missing [contentWindow] are
    such failures, with their own messages.  The banner is rendered from
    [error] only when it is not empty: after a failure whose [Error] has
    an empty message, [error] is the empty string and no banner is
    shown. *)
Theorem C6_setup_failures_are_caught `{Imports} (s : State) :
  (forall env client content,
      exists s', setupApp env client content s = (s', Normal tt)) /\
  (forall b env, exists s', setupApp_after_load b env s = (s', Normal tt)) /\
  (forall b result, exists s', setupApp_after_connect b result s = (s', Normal tt)) /\
  (forall env client content,
      construct_result env = None -> has_document env = false ->
      exists s1, setupApp_body env client content s
                 = (s1, Throw (ErrorObj (js "Could not access iframe document")))) /\
  (forall b env,
      window_after_load env = false ->
      exists s1, after_load_body b env s
                 = (s1, Throw (ErrorObj (js "Iframe contentWindow not available")))) /\
  (forall b err, after_connect_body b (Some err) s = (s, Throw err)) /\
  (is_unmounted s = false ->
   (forall env client content s1 err,
       setupApp_body env client content s = (s1, Throw err) ->
       exists s', setupApp env client content s = (s', Normal tt) /\
                  error s' = Some (match err with
                                   | ErrorObj message => message
                                   | NonError => js "Failed to set up app"
                                   end) /\
                  loading s' = false) /\
   (forall b env s1 err,
       after_load_body b env s = (s1, Throw err) ->
       exists s', setupApp_after_load b env s = (s', Normal tt) /\
                  error s' = Some (match err with
                                   | ErrorObj message => message
                                   | NonError => js "Failed to set up app"
                                   end) /\
                  loading s' = false) /\
   (forall b result s1 err,
       after_connect_body b result s = (s1, Throw err) ->
       exists s', setupApp_after_connect b result s = (s', Normal tt) /\
                  error s' = Some (match err with
                                   | ErrorObj message => message
                                   | NonError => js "Failed to set up app"
                                   end) /\
                  loading s' = false)) /\
  (forall p, truthy_str (getToolUiResourceUri (tool p)) = true ->
     exists f note,
       render p s = AppView (loading s)
                      (match error s with
                       | Some (c :: message) => Some (c :: message)
                       | _ => None
                       end) f note).
Proof.
  repeat apply conj.
  - intros. apply setupApp_returns.
  - intros. apply setupApp_after_load_returns.
  - intros. apply setupApp_after_connect_returns.
  - intros env client content Hc Hd. run_M. rewrite Hc, Hd. by eexists.
  - intros b env Hw. run_M. rewrite Hw. by eexists.
  - intros b err. reflexivity.
  - intros Hm. repeat apply conj.
    + intros env client content s1 err Hb.
      pose proof (setupApp_body_phase env client content s) as Hp.
      unfold setupApp, try_catch_M. rewrite Hb in *. simpl in Hp.
      destruct (catch_setup_state (current_bridge s1) err s1) as (s' & -> & ? & ?);
        [by eapply is_unmounted_phase|]. exists s'. by destruct err.
    + intros b env s1 err Hb.
      pose proof (after_load_body_phase b env s) as Hp.
      unfold setupApp_after_load, try_catch_M. rewrite Hb in *. simpl in Hp.
      destruct (catch_setup_state (Some b) err s1) as (s' & -> & ? & ?);
        [by eapply is_unmounted_phase|]. exists s'. by destruct err.
    + intros b result s1 err Hb.
      pose proof (after_connect_body_phase b result s) as Hp.
      unfold setupApp_after_connect, try_catch_M. rewrite Hb in *. simpl in Hp.
      destruct (catch_setup_state (Some b) err s1) as (s' & -> & ? & ?);
        [by eapply is_unmounted_phase|]. exists s'. by destruct err.
  - intros p Hu. unfold render. rewrite Hu. by eexists _, _.
Qed.

(** The failing input: [connect] rejects with an [Error] whose message
    is empty.  The failure is caught, the spinner is cleared, [error] is
    the empty string, and the view has no banner. *)
Lemma C6_setup_failures_are_caught_witness :
  let s := @run example_imports
             [Commit (props_of toolA envelope) fine; LoadSettled 0 loaded] init in
  exists s', setupApp_after_connect 0 (Some (ErrorObj [])) s
             = (s', Normal tt) /\
             error s' = Some [] /\ loading s' = false /\
             exists f note,
               @render example_imports (props_of toolA envelope) s'
               = AppView false None f note.
Proof.
  intros s.
  destruct (@C6_setup_failures_are_caught example_imports s)
    as (_ & _ & _ & _ & _ & Hthrow & Hmounted & _).
  destruct (Hmounted eq_refl) as (_ & _ & Hcaught).
  destruct (Hcaught 0%nat (Some (ErrorObj [])) s (ErrorObj []) (Hthrow 0%nat _))
    as (s' & Hs' & He & Hl).
  exists s'. split; [exact Hs'|]. split; [exact He|]. split; [exact Hl|].
  destruct (@C6_setup_failures_are_caught example_imports s')
    as (_ & _ & _ & _ & _ & _ & _ & Hrender).
  destruct (Hrender (props_of toolA envelope) eq_refl) as (f & note & Hr).
  exists f, note. rewrite Hr, He, Hl. reflexivity.
Defined.





Section NoResource.
Context `{Imports}.

Lemma fetch_effect_no_uri p s : no_uri p -> fetch_effect p s = s.
Proof.
  unfold no_uri, fetch_effect.
  by destruct (getToolUiResourceUri (tool p)) as [[|]|].
Qed.

Lemma setup_effect_no_iframe env p s :
  iframeRef s = false -> setup_effect env p s = with_cleanup None s.
Proof.
  unfold setup_effect. intros ->. by destruct (resourceContent p).
Qed.

Lemma run_cleanup_log close s :
  exists new, log (run_cleanup close s) = new ++ log s /\
              Forall (fun a => is_setup_action a = false) new.
Proof.
  destruct s as [ph ld er ini br ifr cl ss lg]. unfold run_cleanup.
  state_norm. destruct cl as [[b|]|]; [destruct close| |]; destruct ph.
  all: first [ by exists []
             | by exists [Close b]; repeat constructor
             | by exists [ConsoleError; Close b]; repeat constructor ].
Qed.

Lemma run_cleanup_none close s : cleanup s = None -> run_cleanup close s = s.
Proof. unfold run_cleanup. by intros ->. Qed.

Lemma commit_no_uri_log env p s :
  no_uri p ->
  exists new, log (commit env p s) = new ++ log s /\
              Forall (fun a => is_setup_action a = false) new.
Proof.
  intros Hu. unfold commit. destruct (phase s) as [|p0|]; [| |by exists []].
  - rewrite fetch_effect_no_uri by done.
    rewrite setup_effect_no_iframe by (simpl; apply Hu). by exists [].
  - destruct (negb (bool_decide (setup_deps p0 = setup_deps p))).
    + destruct (run_cleanup_log (close_result env)
                  (with_iframeRef (truthy_str (getToolUiResourceUri (tool p)))
                     (with_phase (Mounted p) s))) as (new & Hn & Hq).
      assert (iframeRef (run_cleanup (close_result env)
                  (with_iframeRef (truthy_str (getToolUiResourceUri (tool p)))
                     (with_phase (Mounted p) s))) = false) as Hi.
      { clear Hn. destruct s as [ph ld er ini br ifr cl ss lg].
        unfold run_cleanup. state_norm. rewrite Hu.
        destruct cl as [[b|]|]; [destruct (close_result env)| |]; done. }
      destruct (negb (bool_decide (fetch_deps p0 = fetch_deps p)));
        rewrite ?fetch_effect_no_uri by done;
        rewrite setup_effect_no_iframe by done; simpl; by exists new.
    + destruct (negb (bool_decide (fetch_deps p0 = fetch_deps p)));
        rewrite ?fetch_effect_no_uri by done; by exists [].
Qed.

Lemma idle_step e s :
  match e with Commit p _ => no_uri p | _ => True end ->
  idle s -> idle (step e s).
Proof.
  intros He (Hl & Hs & Hc & Hp).
  destruct e as [p env|close|b env|b result|b|b m]; simpl.
  - unfold commit. destruct (phase s) as [|p0|] eqn:Hph.
    + rewrite fetch_effect_no_uri by done.
      rewrite setup_effect_no_iframe by (simpl; apply He).
      repeat split; simpl; try done. by intros ? [= <-].
    + destruct (negb (bool_decide (setup_deps p0 = setup_deps p)));
        destruct (negb (bool_decide (fetch_deps p0 = fetch_deps p)));
        rewrite ?run_cleanup_none by done;
        rewrite ?fetch_effect_no_uri by done;
        rewrite ?setup_effect_no_iframe by (simpl; apply He);
        repeat split; simpl; try done; by intros ? [= <-].
    + repeat split; try done. intros p'. by rewrite Hph.
  - unfold unmount. destruct (phase s) eqn:Hph;
      [by unfold idle; rewrite Hph| |by unfold idle; rewrite Hph].
    rewrite run_cleanup_none by done. repeat split; simpl; done.
  - unfold pc_is, pc_of. rewrite Hs. simpl. by repeat split.
  - unfold pc_is, pc_of. rewrite Hs. simpl. by repeat split.
  - rewrite Hs. simpl. by repeat split.
  - rewrite Hs. simpl. by repeat split.
Qed.

Lemma idle_run es s :
  Forall (fun e => match e with Commit p _ => no_uri p | _ => True end) es ->
  idle s -> idle (run es s).
Proof.
  intros Hes. revert s. induction Hes as [|e es He _ IH]; intros s Hs; [done|].
  simpl. apply IH. by apply idle_step.
Qed.

End NoResource.

(** C5: for a tool without a resource URI the component renders the
    configuration error, whatever its state; a commit with such a tool
    reads no resource, writes no document and constructs or connects no
    bridge; and a component that only ever receives such tools never does
    any of these and never leaves that view. *)
Theorem C5_no_resource_uri `{Imports} :
  (forall p s, no_uri p -> exists text, render p s = NoResourceAlert text) /\
  (forall p env s, no_uri p ->
     exists new, log (commit env p s) = new ++ log s /\
                 Forall (fun a => is_setup_action a = false) new) /\
  (forall es,
     Forall (fun e => match e with Commit p _ => no_uri p | _ => True end) es ->
     log (run es init) = [] /\ sessions (run es init) = [] /\
     forall v, view (run es init) = Some v -> exists text, v = NoResourceAlert text).
Proof.
  repeat apply conj.
  - intros p s Hu. unfold render. rewrite Hu. by eexists.
  - intros. by apply commit_no_uri_log.
  - intros es Hes.
    destruct (idle_run es init Hes) as (Hl & Hs & _ & Hp); [by repeat split|].
    repeat apply conj; try done.
    intros v. unfold view. destruct (phase (run es init)) as [|p|] eqn:Hph; try done.
    intros [= <-]. unfold render. rewrite (Hp p eq_refl). by eexists.
Qed.

Lemma C5_no_resource_uri_witness :
  log (@run example_imports [Commit (props_of plain_tool markup) fine] init) = [] /\
  exists text, @render example_imports (props_of plain_tool markup) init
               = NoResourceAlert text.
Proof.
  destruct (@C5_no_resource_uri example_imports) as (Hrender & _ & Hrun).
  split.
  - apply Hrun. repeat constructor.
  - apply Hrender. vm_compute. reflexivity.
Defined.

Section Shapes.
Context `{Imports}.

Lemma list_insert_end {A} (l : list A) (x y : A) :
  <[length l := x]> (l ++ [y]) = l ++ [x].
Proof. induction l; simpl; by f_equal. Qed.

(** The first segment of [setupApp], run by the setup effect. *)
Lemma setupApp_shape env client content s :
  current_bridge s = None ->
  let s' := fst (setupApp env client content s) in
  initialized s' = initialized s /\ bridgeRef s' = bridgeRef s /\
  phase s' = phase s /\ iframeRef s' = iframeRef s /\
  ((sessions s' = sessions s /\ cleanup s' = cleanup s /\
    log s' = ConsoleError :: log s) \/
   exists pc acts,
     (pc = AwaitLoad \/ pc = Failed) /\
     sessions s' = sessions s ++ [pc] /\
     cleanup s' = Some (Some (length (sessions s))) /\
     log s' = acts ++ NewAppBridge (length (sessions s)) client (dark env) :: log s /\
     Forall (fun a => neutral a = true) acts).
Proof.
  destruct (resolveContent_total content) as [v Hv].
  destruct s as [ph ld er ini br ifr cl ss lg]. intros Hcb.
  run_M. rewrite Hv.
  destruct (construct_result env), (has_document env), (write_result env),
    (has_window env); state_norm; rewrite ?Hcb; destruct ph;
    rewrite ?list_insert_end; (repeat apply conj; try done).
  all: first [ by left
             | right; exists Failed, [ConsoleError]; by repeat constructor
             | right; exists AwaitLoad, [ListenLoad (length ss); DocWrite (length ss) v];
               by repeat constructor
             | right; exists AwaitLoad, [DocWrite (length ss) v]; by repeat constructor ].
Qed.

Lemma after_load_shape b env s :
  let s' := fst (setupApp_after_load b env s) in
  initialized s' = initialized s /\ bridgeRef s' = bridgeRef s /\
  phase s' = phase s /\ cleanup s' = cleanup s /\
  exists pc acts,
    ((pc = AwaitConnect /\ window_after_load env = true /\
      transport_result env = None) \/ pc = Failed) /\
    sessions s' = <[b := pc]> (sessions s) /\
    log s' = acts ++ log s /\ Forall (fun a => neutral a = true) acts.
Proof.
  destruct s as [ph ld er ini br ifr cl ss lg]. run_M.
  destruct (window_after_load env), (transport_result env);
    state_norm; destruct ph; (repeat apply conj; try done).
  all: first [ exists Failed, [ConsoleError]; repeat constructor; by right
             | exists AwaitConnect, [Connect b; NewTransport b];
               repeat constructor; by left ].
Qed.

Lemma after_connect_shape b result s :
  let s' := fst (setupApp_after_connect b result s) in
  initialized s' = initialized s /\ phase s' = phase s /\
  cleanup s' = cleanup s /\
  exists pc acts,
    ((pc = Connected /\ result = None) \/ (pc = Failed /\ result <> None)) /\
    sessions s' = <[b := pc]> (sessions s) /\
    log s' = acts ++ log s /\ Forall (fun a => neutral a = true) acts.
Proof.
  destruct s as [ph ld er ini br ifr cl ss lg]. run_M.
  destruct result; state_norm; destruct ph; (repeat apply conj; try done).
  all: first [ exists Failed, [ConsoleError]; by repeat constructor
             | exists Connected, []; repeat constructor; by left ].
Qed.

Lemma fetch_effect_shape p s :
  let s' := fetch_effect p s in
  initialized s' = initialized s /\ bridgeRef s' = bridgeRef s /\
  phase s' = phase s /\ cleanup s' = cleanup s /\ iframeRef s' = iframeRef s /\
  sessions s' = sessions s /\
  exists acts, log s' = acts ++ log s /\ Forall (fun a => neutral a = true) acts.
Proof.
  destruct s as [ph ld er ini br ifr cl ss lg]. unfold fetch_effect.
  destruct (getToolUiResourceUri (tool p)) as [[|c uri]|];
    state_norm; destruct ph; (repeat apply conj; try done).
  all: first [ by exists []
             | exists [ReadResource (onReadResource p) (c :: uri)];
               by repeat constructor ].
Qed.

Lemma run_cleanup_shape close s :
  let s' := run_cleanup close s in
  phase s' = phase s /\ sessions s' = sessions s /\ iframeRef s' = iframeRef s /\
  ((cleanup s = None /\ s' = s) \/
   (cleanup s' = None /\ bridgeRef s' = None /\
    (is_unmounted s = false -> initialized s' = false) /\
    (initialized s' = true -> initialized s = true) /\
    match current_bridge s with
    | Some b => log s' = Close b :: log s \/
                log s' = ConsoleError :: Close b :: log s
    | None => log s' = log s
    end)).
Proof.
  destruct s as [ph ld er ini br ifr cl ss lg]. unfold run_cleanup.
  state_norm. destruct cl as [[b|]|]; [destruct close| |]; destruct ph;
    (repeat apply conj; try done);
    first [ by left
          | right; repeat apply conj; first [ done | by left | by right ] ].
Qed.

End Shapes.

Section Accounting.
Context `{Imports}.

Lemma setup_effect_shape env p s :
  let s' := setup_effect env p s in
  initialized s' = initialized s /\ bridgeRef s' = bridgeRef s /\
  phase s' = phase s /\
  ((sessions s' = sessions s /\ current_bridge s' = None /\
    exists acts, log s' = acts ++ log s /\ Forall (fun a => neutral a = true) acts) \/
   exists pc acts client,
     (pc = AwaitLoad \/ pc = Failed) /\
     sessions s' = sessions s ++ [pc] /\
     cleanup s' = Some (Some (length (sessions s))) /\
     log s' = acts ++ NewAppBridge (length (sessions s)) client
                       (dark env) :: log s /\
     Forall (fun a => neutral a = true) acts).
Proof.
  unfold setup_effect.
  destruct (resourceContent p) as [|c content]; [| destruct (iframeRef s) eqn:Hi;
    [destruct (mcpClient p) as [client|]|] ];
    try (simpl; repeat apply conj; try done; left; repeat apply conj; try done;
         by exists []).
  destruct (setupApp_shape env client (c :: content) (with_cleanup (Some None) s))
    as (Hin & Hb & Hp & _ & [(Hs & Hc & Hl)|(pc & acts & Hpc & Hs & Hc & Hl & Ha)]);
    [done|..].
  - repeat apply conj; try done. left. unfold current_bridge. rewrite Hc.
    repeat apply conj; try done. exists [ConsoleError]. by repeat constructor.
  - repeat apply conj; try done. right. by exists pc, acts, client.
Qed.

Lemma count_close_app b l1 l2 :
  count_close b (l1 ++ l2) = (count_close b l1 + count_close b l2)%nat.
Proof.
  induction l1 as [|a l1 IH]; [done|]. destruct a; simpl; rewrite ?IH; lia.
Qed.

Lemma count_close_neutral b acts :
  Forall (fun a => neutral a = true) acts -> count_close b acts = 0%nat.
Proof. induction 1 as [|a acts Ha _ IH]; [done|]. by destruct a. Qed.

Lemma count_new_app l1 l2 :
  count_new (l1 ++ l2) = (count_new l1 + count_new l2)%nat.
Proof.
  induction l1 as [|a l1 IH]; [done|]. destruct a; simpl; rewrite ?IH; lia.
Qed.

Lemma count_new_neutral acts :
  Forall (fun a => neutral a = true) acts -> count_new acts = 0%nat.
Proof. induction 1 as [|a acts Ha _ IH]; [done|]. by destruct a. Qed.

Lemma closed_before_new_neutral acts l :
  Forall (fun a => neutral a = true) acts ->
  closed_before_new l -> closed_before_new (acts ++ l).
Proof. induction 1 as [|a acts Ha _ IH]; [done|]. by destruct a. Qed.

Lemma closed_before_new_tail l1 l2 :
  closed_before_new (l1 ++ l2) -> closed_before_new l2.
Proof.
  induction l1 as [|a l1 IH]; [done|]. simpl.
  destruct a; try done. intros (_ & _ & ?). by apply IH.
Qed.

(** Bridges are named in the order of their construction. *)
Lemma closed_before_new_names l b client d :
  closed_before_new l -> In (NewAppBridge b client d) l -> (b < count_new l)%nat.
Proof.
  induction l as [|a l IH]; [done|]. simpl. intros Hl [->|Hin].
  - destruct Hl as (-> & _). lia.
  - destruct a; try (by apply IH).
    destruct Hl as (_ & _ & Hl). specialize (IH Hl Hin). lia.
Qed.

Lemma closed_before_new_split l1 b' client d l2 :
  closed_before_new (l1 ++ NewAppBridge b' client d :: l2) ->
  b' = count_new l2 /\
  (forall b client' d', In (NewAppBridge b client' d') l2 -> (b < b')%nat) /\
  (forall b, (b < b')%nat -> count_close b l2 = 1%nat).
Proof.
  intros Hl. apply closed_before_new_tail in Hl. simpl in Hl.
  destruct Hl as (-> & Hclosed & Hl2). repeat apply conj; try done.
  intros b client' d'. by apply closed_before_new_names.
Qed.

Lemma accounted_neutral s s' acts :
  log s' = acts ++ log s -> Forall (fun a => neutral a = true) acts ->
  length (sessions s') = length (sessions s) ->
  current_bridge s' = current_bridge s ->
  (phase s' = Initial -> cleanup s' = None) ->
  closes_accounted s -> closes_accounted s'.
Proof.
  intros Hl Ha Hs Hc Hi (Hone & Hcur & Hout & Hnew & Hord & _).
  assert (forall b, count_close b (log s') = count_close b (log s)) as Hcount
    by (intros b; by rewrite Hl, count_close_app, count_close_neutral).
  repeat apply conj; try done.
  - intros b. rewrite Hs, Hc, Hcount. apply Hone.
  - intros b. rewrite Hs, Hc, Hcount. apply Hcur.
  - intros b. rewrite Hs, Hcount. apply Hout.
  - by rewrite Hl, count_new_app, count_new_neutral, Hs.
  - rewrite Hl. by apply closed_before_new_neutral.
Qed.

Lemma accounted_run_cleanup close s :
  closes_accounted s -> closes_accounted (run_cleanup close s).
Proof.
  intros Hacc.
  destruct (run_cleanup_shape close s)
    as (Hp & Hs & _ & [[_ ->]|(Hc & _ & _ & _ & Hl)]); [done|].
  destruct Hacc as (Hone & Hcur & Hout & Hnew & Hord & Hi).
  assert (current_bridge (run_cleanup close s) = None) as Hcb
    by (unfold current_bridge; by rewrite Hc).
  destruct (current_bridge s) as [b|] eqn:Hb.
  - destruct (Hcur b eq_refl) as [Hlt Hzero].
    assert (forall b', count_close b' (log (run_cleanup close s))
            = ((if Nat.eqb b' b then 1 else 0) + count_close b' (log s))%nat)
      as Hcount by (intros b'; by destruct Hl as [-> | ->]).
    repeat apply conj; try done.
    + intros b' Hlt' _. rewrite Hcount. rewrite Hs in Hlt'.
      destruct (Nat.eqb_spec b' b) as [->|Hne]; [by rewrite Hzero|].
      rewrite Hone; [done..|]. congruence.
    + intros b'. by rewrite Hcb.
    + intros b' Hge. rewrite Hcount. rewrite Hs in Hge.
      destruct (Nat.eqb_spec b' b) as [->|Hne]; [lia|]. by rewrite Hout.
    + rewrite Hs. by destruct Hl as [-> | ->].
    + by destruct Hl as [-> | ->].
  - assert (forall b', count_close b' (log (run_cleanup close s))
                       = count_close b' (log s)) as Hcount
      by (intros b'; by rewrite Hl).
    repeat apply conj; try done.
    + intros b' Hlt' _. rewrite Hcount. rewrite Hs in Hlt'. by apply Hone.
    + intros b'. by rewrite Hcb.
    + intros b' Hge. rewrite Hcount. rewrite Hs in Hge. by apply Hout.
    + by rewrite Hl, Hs.
    + by rewrite Hl.
Qed.

Lemma accounted_setup_effect env p s :
  current_bridge s = None -> (phase s <> Initial) ->
  closes_accounted s -> closes_accounted (setup_effect env p s).
Proof.
  intros Hcb Hph Hacc.
  destruct (setup_effect_shape env p s)
    as (_ & _ & Hp & [(Hs & Hc & acts & Hl & Ha)
                     |(pc & acts & client & _ & Hs & Hc & Hl & Ha)]).
  - eapply accounted_neutral; try done; [by rewrite Hs|congruence|].
    by rewrite Hp.
  - destruct Hacc as (Hone & Hcur & Hout & Hnew & Hord & Hi).
    assert (current_bridge (setup_effect env p s) = Some (length (sessions s)))
      as Hcb' by (unfold current_bridge; by rewrite Hc).
    assert (forall b, count_close b (log (setup_effect env p s))
                      = count_close b (log s)) as Hcount
      by (intros b; by rewrite Hl, count_close_app, count_close_neutral).
    repeat apply conj.
    + intros b. rewrite Hs, Hcb', length_app, Hcount. simpl. intros Hlt Hne.
      apply Hone; [|by rewrite Hcb].
      destruct (decide (b = length (sessions s))) as [->|]; [done|lia].
    + intros b. rewrite Hcb', Hs, length_app, Hcount. simpl. intros [= <-].
      split; [lia|]. by apply Hout.
    + intros b. rewrite Hs, length_app, Hcount. simpl. intros Hge.
      apply Hout. lia.
    + rewrite Hl, count_new_app, count_new_neutral, Hs, length_app by done.
      simpl. lia.
    + rewrite Hl. apply closed_before_new_neutral; [done|]. simpl.
      repeat apply conj; try done.
      intros b Hb. apply Hone; [done|by rewrite Hcb].
    + by rewrite Hp.
Qed.

Lemma accounted_commit env p s :
  closes_accounted s -> closes_accounted (commit env p s).
Proof.
  intros Hacc. unfold commit.
  set (s0 := with_iframeRef _ (with_phase (Mounted p) s)).
  assert (closes_accounted s0) as H0.
  { destruct Hacc as (? & ? & ? & ? & ? & ?). by repeat apply conj. }
  assert (forall s1, closes_accounted s1 -> phase s1 <> Initial ->
                     closes_accounted (fetch_effect p s1)) as Hfetch.
  { intros s1 H1 Hne.
    destruct (fetch_effect_shape p s1) as (_ & _ & Hp & Hc & _ & Hs & acts & Hl & Ha).
    eapply accounted_neutral; try done; [by rewrite Hs| |by rewrite Hp].
    unfold current_bridge. by rewrite Hc. }
  destruct (phase s) as [|p0|] eqn:Hph; [| |done].
  - destruct (fetch_effect_shape p s0) as (_ & _ & Hp & Hc & _).
    apply accounted_setup_effect; [| |by apply Hfetch].
    + unfold current_bridge. rewrite Hc. simpl.
      destruct Hacc as (_ & _ & _ & _ & _ & Hi). by rewrite Hi.
    + by rewrite Hp.
  - destruct (negb (bool_decide (setup_deps p0 = setup_deps p))).
    + pose proof (accounted_run_cleanup (close_result env) s0 H0) as H1.
      destruct (run_cleanup_shape (close_result env) s0)
        as (Hp1 & _ & _ & Hc1).
      assert (current_bridge (run_cleanup (close_result env) s0) = None) as Hcb.
      { unfold current_bridge.
        destruct Hc1 as [[Hn ->]|(-> & _)]; [by rewrite Hn|done]. }
      assert (phase (run_cleanup (close_result env) s0) <> Initial) as Hne
        by (by rewrite Hp1).
      destruct (negb (bool_decide (fetch_deps p0 = fetch_deps p))).
      * destruct (fetch_effect_shape p (run_cleanup (close_result env) s0))
          as (_ & _ & Hp & Hc & _).
        apply accounted_setup_effect; [| |by apply Hfetch].
        -- unfold current_bridge in *. by rewrite Hc.
        -- by rewrite Hp.
      * by apply accounted_setup_effect.
    + destruct (negb (bool_decide (fetch_deps p0 = fetch_deps p))); [|done].
      by apply Hfetch.
Qed.

Lemma accounted_step e s : closes_accounted s -> closes_accounted (step e s).
Proof.
  intros Hacc. destruct e as [p env|close|b env|b result|b|b m]; simpl.
  - by apply accounted_commit.
  - unfold unmount. destruct (phase s) eqn:Hph; try done.
    pose proof (accounted_run_cleanup close s Hacc) as (? & ? & ? & ? & ? & ?).
    by repeat apply conj.
  - destruct (pc_is b AwaitLoad s); [|done].
    destruct (after_load_shape b env s)
      as (_ & _ & Hp & Hc & pc & acts & _ & Hs & Hl & Ha).
    eapply accounted_neutral; try done.
    + by rewrite Hs, length_insert.
    + unfold current_bridge. by rewrite Hc.
    + rewrite Hp, Hc. by destruct Hacc as (_ & _ & _ & _ & _ & ?).
  - destruct (pc_is b AwaitConnect s); [|done].
    destruct (after_connect_shape b result s)
      as (_ & Hp & Hc & pc & acts & _ & Hs & Hl & Ha).
    eapply accounted_neutral; try done.
    + by rewrite Hs, length_insert.
    + unfold current_bridge. by rewrite Hc.
    + rewrite Hp, Hc. by destruct Hacc as (_ & _ & _ & _ & _ & ?).
  - case_bool_decide; [|done].
    destruct Hacc as (Hone & Hcur & Hout & Hnew & Hord & Hi).
    destruct s as [ph ld er ini br ifr cl ss lg]. unfold on_initialized.
    eapply (accounted_neutral _ _ [ConsoleLog]);
      [| |..|by repeat apply conj]; state_norm; destruct ph; try done;
      by repeat constructor.
  - case_bool_decide; [|done].
    destruct Hacc as (Hone & Hcur & Hout & Hnew & Hord & Hi).
    destruct s as [ph ld er ini br ifr cl ss lg]. unfold on_error.
    eapply (accounted_neutral _ _ [ConsoleError]);
      [| |..|by repeat apply conj]; state_norm; destruct ph; try done;
      by repeat constructor.
Qed.

Lemma accounted_reachable s : reachable s -> closes_accounted s.
Proof.
  induction 1 as [|s e _ IH _]; [|by apply accounted_step].
  repeat apply conj; try done. simpl. intros b ?. lia.
Qed.

End Accounting.

Section Lifecycle.
Context `{Imports}.

Lemma reachable_run es s :
  reachable s -> admissible es s = true -> reachable (run es s).
Proof.
  revert s. induction es as [|e es IH]; intros s Hs Ha; [done|].
  simpl in *. apply andb_true_iff in Ha as [He Ha].
  apply IH; [by constructor|done].
Qed.

Lemma commit_frame env p s :
  let s' := commit env p s in
  (initialized s' = true -> initialized s = true) /\
  (sessions s' = sessions s \/
   exists pc, (pc = AwaitLoad \/ pc = Failed) /\ sessions s' = sessions s ++ [pc]).
Proof.
  unfold commit.
  set (s0 := with_iframeRef _ (with_phase (Mounted p) s)).
  assert (forall s1, (initialized s1 = true -> initialized s = true) ->
                     sessions s1 = sessions s ->
            let s' := setup_effect (setup_env env) p s1 in
            (initialized s' = true -> initialized s = true) /\
            (sessions s' = sessions s \/
             exists pc, (pc = AwaitLoad \/ pc = Failed) /\
                        sessions s' = sessions s ++ [pc])) as Hsetup.
  { intros s1 Hi1 Hs1.
    destruct (setup_effect_shape (setup_env env) p s1)
      as (Hi & _ & _ & [(Hs & _)|(pc & acts & client & Hpc & Hs & _)]); simpl.
    - rewrite Hi, Hs. split; [done|by left].
    - rewrite Hi, Hs, Hs1. split; [done|]. right. by exists pc. }
  assert (forall s1, (initialized s1 = true -> initialized s = true) ->
                     sessions s1 = sessions s ->
            let s' := fetch_effect p s1 in
            (initialized s' = true -> initialized s = true) /\
            sessions s' = sessions s) as Hfetch.
  { intros s1 Hi1 Hs1.
    destruct (fetch_effect_shape p s1) as (Hi & _ & _ & _ & _ & Hs & _); simpl.
    by rewrite Hi, Hs. }
  destruct (phase s) as [|p0|]; [| |by split; [|left]].
  - destruct (Hfetch s0) as [? ?]; [done..|]. by apply Hsetup.
  - destruct (run_cleanup_shape (close_result env) s0)
      as (_ & Hs1 & _ & Hc1).
    assert (initialized (run_cleanup (close_result env) s0) = true ->
            initialized s = true) as Hi1.
    { destruct Hc1 as [[_ ->]|(_ & _ & _ & Hi & _)]; [done|]. apply Hi. }
    destruct (negb (bool_decide (setup_deps p0 = setup_deps p)));
      destruct (negb (bool_decide (fetch_deps p0 = fetch_deps p))).
    + destruct (Hfetch (run_cleanup (close_result env) s0)) as [? ?]; [done..|].
      by apply Hsetup.
    + by apply Hsetup.
    + destruct (Hfetch s0) as [? ?]; [done..|]. split; [done|by left].
    + split; [done|by left].
Qed.

(** [initialized] turns true by a bridge's [initialized] callback only. *)
Lemma step_initialized e s :
  initialized (step e s) = true ->
  initialized s = true \/ exists b, e = BridgeInitialized b.
Proof.
  destruct e as [p env|close|b env|b result|b|b m]; simpl.
  - intros Hi. left. by apply (commit_frame env p s).
  - unfold unmount. destruct (phase s); try by left.
    destruct (run_cleanup_shape close s) as (_ & _ & _ & [[_ ->]|(_ & _ & _ & Hi & _)]);
      by left; auto.
  - destruct (pc_is b AwaitLoad s); [|by left].
    destruct (after_load_shape b env s) as (-> & _). by left.
  - destruct (pc_is b AwaitConnect s); [|by left].
    destruct (after_connect_shape b result s) as (-> & _). by left.
  - intros _. right. by exists b.
  - case_bool_decide; [|by left]. destruct s as [ph ld er ini br ifr cl ss lg].
    unfold on_error. state_norm. destruct ph; by left.
Qed.

Lemma pc_is_true b pc s : pc_is b pc s = true -> pc_of b s = Some pc.
Proof.
  unfold pc_is. destruct (pc_of b s) as [pc'|]; [|done].
  by destruct pc', pc.
Qed.

(** The state of a session changes only when the promise it awaits
    settles. *)
Lemma step_session e s b pc :
  pc_of b s = Some pc ->
  pc_of b (step e s) = Some pc \/
  (pc = AwaitLoad /\ exists env, e = LoadSettled b env) \/
  (pc = AwaitConnect /\ exists result, e = ConnectSettled b result).
Proof.
  unfold pc_of. intros Hb.
  destruct e as [p env|close|b' env|b' result|b'|b' m]; simpl.
  - left. destruct (commit_frame env p s) as [_ [->|(pc' & _ & ->)]]; [done|].
    by apply lookup_app_l_Some.
  - left. unfold unmount. destruct (phase s); try done.
    destruct (run_cleanup_shape close s) as (_ & Hs & _). simpl. by rewrite Hs.
  - destruct (pc_is b' AwaitLoad s) eqn:Hpc; [|by left].
    apply pc_is_true in Hpc. unfold pc_of in Hpc.
    destruct (after_load_shape b' env s) as (_ & _ & _ & _ & pc' & acts & _ & -> & _).
    destruct (decide (b' = b)) as [->|Hne].
    + right; left. split; [congruence|by exists env].
    + left. by rewrite list_lookup_insert_ne.
  - destruct (pc_is b' AwaitConnect s) eqn:Hpc; [|by left].
    apply pc_is_true in Hpc. unfold pc_of in Hpc.
    destruct (after_connect_shape b' result s) as (_ & _ & _ & pc' & acts & _ & -> & _).
    destruct (decide (b' = b)) as [->|Hne].
    + right; right. split; [congruence|by exists result].
    + left. by rewrite list_lookup_insert_ne.
  - left. case_bool_decide; [|done].
    destruct s as [ph ld er ini br ifr cl ss lg].
    unfold on_initialized. state_norm. by destruct ph.
  - left. case_bool_decide; [|done].
    destruct s as [ph ld er ini br ifr cl ss lg].
    unfold on_error. state_norm. by destruct ph.
Qed.

(** A session is [Connected] only because its [connect] promise
    resolved. *)
Lemma connected_origin e s b :
  pc_of b (step e s) = Some Connected ->
  pc_of b s = Some Connected \/
  (e = ConnectSettled b None /\ pc_of b s = Some AwaitConnect).
Proof.
  unfold pc_of.
  destruct e as [p env|close|b' env|b' result|b'|b' m]; simpl.
  - destruct (commit_frame env p s) as [_ [->|(pc' & Hpc & ->)]]; [by left|].
    intros Hl. left. apply lookup_app_Some in Hl as [?|[_ Hl]]; [done|].
    apply list_lookup_singleton_Some in Hl as [_ Heq]. destruct Hpc; congruence.
  - intros Hl. left. rewrite <- Hl. unfold unmount.
    destruct (phase s); try done.
    destruct (run_cleanup_shape close s) as (_ & Hs & _). simpl. by rewrite Hs.
  - destruct (pc_is b' AwaitLoad s) eqn:Hpc; [|by left].
    destruct (after_load_shape b' env s)
      as (_ & _ & _ & _ & pc' & acts & Hpc' & -> & _).
    intros Hl. left. destruct (decide (b' = b)) as [->|Hne].
    + apply list_lookup_insert_Some in Hl as [(_ & Heq & _)|[? ?]]; [|done].
      destruct Hpc' as [[? _]|?]; congruence.
    + by rewrite list_lookup_insert_ne in Hl.
  - destruct (pc_is b' AwaitConnect s) eqn:Hpc; [|by left].
    apply pc_is_true in Hpc. unfold pc_of in Hpc.
    destruct (after_connect_shape b' result s)
      as (_ & _ & _ & pc' & acts & Hpc' & -> & _).
    intros Hl. destruct (decide (b' = b)) as [->|Hne].
    + apply list_lookup_insert_Some in Hl as [(_ & Heq & _)|[? ?]]; [|done].
      right. destruct Hpc' as [[_ ->]|[? _]]; [done|congruence].
    + left. by rewrite list_lookup_insert_ne in Hl.
  - intros Hl. left. rewrite <- Hl. case_bool_decide; [|done].
    destruct s as [ph ld er ini br ifr cl ss lg].
    unfold on_initialized. state_norm. by destruct ph.
  - intros Hl. left. rewrite <- Hl. case_bool_decide; [|done].
    destruct s as [ph ld er ini br ifr cl ss lg].
    unfold on_error. state_norm. by destruct ph.
Qed.

(** A session awaits [connect] only because its load promise resolved
    with a window and a transport. *)
Lemma await_connect_origin e s b :
  pc_of b (step e s) = Some AwaitConnect ->
  pc_of b s = Some AwaitConnect \/
  (exists env, e = LoadSettled b env /\ window_after_load env = true /\
               transport_result env = None /\ pc_of b s = Some AwaitLoad).
Proof.
  unfold pc_of.
  destruct e as [p env|close|b' env|b' result|b'|b' m]; simpl.
  - destruct (commit_frame env p s) as [_ [->|(pc' & Hpc & ->)]]; [by left|].
    intros Hl. left. apply lookup_app_Some in Hl as [?|[_ Hl]]; [done|].
    apply list_lookup_singleton_Some in Hl as [_ Heq]. destruct Hpc; congruence.
  - intros Hl. left. rewrite <- Hl. unfold unmount.
    destruct (phase s); try done.
    destruct (run_cleanup_shape close s) as (_ & Hs & _). simpl. by rewrite Hs.
  - destruct (pc_is b' AwaitLoad s) eqn:Hpc; [|by left].
    apply pc_is_true in Hpc. unfold pc_of in Hpc.
    destruct (after_load_shape b' env s)
      as (_ & _ & _ & _ & pc' & acts & Hpc' & -> & _).
    intros Hl. destruct (decide (b' = b)) as [->|Hne].
    + apply list_lookup_insert_Some in Hl as [(_ & Heq & _)|[? ?]]; [|done].
      right. exists env. destruct Hpc' as [(_ & ? & ?)|?]; [done|congruence].
    + left. by rewrite list_lookup_insert_ne in Hl.
  - destruct (pc_is b' AwaitConnect s) eqn:Hpc; [|by left].
    apply pc_is_true in Hpc. unfold pc_of in Hpc.
    destruct (after_connect_shape b' result s)
      as (_ & _ & _ & pc' & acts & Hpc' & -> & _).
    intros Hl. left. destruct (decide (b' = b)) as [->|Hne]; [done|].
    by rewrite list_lookup_insert_ne in Hl.
  - intros Hl. left. rewrite <- Hl. case_bool_decide; [|done].
    destruct s as [ph ld er ini br ifr cl ss lg].
    unfold on_initialized. state_norm. by destruct ph.
  - intros Hl. left. rewrite <- Hl. case_bool_decide; [|done].
    destruct s as [ph ld er ini br ifr cl ss lg].
    unfold on_error. state_norm. by destruct ph.
Qed.

Lemma failed_forever es s b :
  pc_of b s = Some Failed -> pc_of b (run es s) = Some Failed.
Proof.
  revert s. induction es as [|e es IH]; intros s Hb; [done|].
  simpl. apply IH.
  by destruct (step_session e s b Failed Hb) as [?|[[? _]|[? _]]].
Qed.

Lemma connected_forever es s b :
  pc_of b s = Some Connected -> pc_of b (run es s) = Some Connected.
Proof.
  revert s. induction es as [|e es IH]; intros s Hb; [done|].
  simpl. apply IH.
  by destruct (step_session e s b Connected Hb) as [?|[[? _]|[? _]]].
Qed.

(** Under the condition on the bridges, a component that is ready was
    made so by a bridge of the trace that is connected. *)
Lemma ready_has_connected es s :
  handshakes_follow_connect es s = true ->
  initialized (run es s) = true ->
  initialized s = true \/
  exists b, In (BridgeInitialized b) es /\ pc_of b (run es s) = Some Connected.
Proof.
  revert s. induction es as [|e es IH]; intros s Hh Hi; [by left|].
  simpl in *. apply andb_true_iff in Hh as [He Hh].
  destruct (IH (step e s) Hh Hi) as [Hi'|(b & Hin & Hb)].
  - destruct (step_initialized e s Hi') as [?|[b ->]]; [by left|].
    right. exists b. split; [by left|].
    apply connected_forever.
    apply pc_is_true in He.
    by destruct (step_session (BridgeInitialized b) s b Connected He)
      as [?|[[? _]|[? _]]].
  - right. exists b. split; [by right|done].
Qed.

Lemma failed_never_reports es s b :
  pc_of b s = Some Failed ->
  handshakes_follow_connect es s = true ->
  ~ In (BridgeInitialized b) es.
Proof.
  revert s. induction es as [|e es IH]; intros s Hb Hh; [by intros []|].
  simpl in Hh. apply andb_true_iff in Hh as [He Hh].
  intros [->|Hin].
  - unfold pc_is in He. by rewrite Hb in He.
  - apply (IH (step e s)); try done.
    by destruct (step_session e s b Failed Hb) as [?|[[? _]|[? _]]].
Qed.

End Lifecycle.

(** C2 (as amended): [initialized] becomes true only by a bridge's
    [initialized] callback.  Provided each bridge delivers that callback
    only once its own [connect] has resolved, a component that is ready
    was made so by a bridge whose [connect] has resolved; a session comes
    to await [connect] only from awaiting the load, with a window and a
    transport at hand, and becomes connected only from awaiting
    [connect], when that promise resolves; and a session whose setup
    failed stays failed, so its bridge never reports.  The bridge that
    reports need not be the one of the current setup: the handlers of a
    bridge that was torn down stay registered. *)
Theorem C2_ready_only_after_handshake `{Imports} :
  (forall e s, initialized s = false -> initialized (step e s) = true ->
               exists b, e = BridgeInitialized b) /\
  (forall es, handshakes_follow_connect es init = true ->
              initialized (run es init) = true ->
              exists b, In (BridgeInitialized b) es /\
                        pc_of b (run es init) = Some Connected) /\
  (forall e s b, pc_of b (step e s) = Some AwaitConnect ->
                 pc_of b s = Some AwaitConnect \/
                 (exists env, e = LoadSettled b env /\
                              window_after_load env = true /\
                              transport_result env = None /\
                              pc_of b s = Some AwaitLoad)) /\
  (forall e s b, pc_of b (step e s) = Some Connected ->
                 pc_of b s = Some Connected \/
                 (e = ConnectSettled b None /\ pc_of b s = Some AwaitConnect)) /\
  (forall es s b, pc_of b s = Some Failed ->
                  pc_of b (run es s) = Some Failed /\
                  (handshakes_follow_connect es s = true ->
                   ~ In (BridgeInitialized b) es)).
Proof.
  repeat apply conj.
  - intros e s Hf Ht. destruct (step_initialized e s Ht) as [?|?]; [congruence|done].
  - intros es Hh Hi. by destruct (ready_has_connected es init Hh Hi).
  - apply @await_connect_origin.
  - apply @connected_origin.
  - intros es s b Hb. split; [by apply failed_forever|].
    by apply failed_never_reports.
Qed.

Lemma C2_ready_only_after_handshake_witness :
  exists b, In (BridgeInitialized b) until_ready /\
            pc_of b (@run example_imports until_ready init) = Some Connected.
Proof.
  destruct (@C2_ready_only_after_handshake example_imports) as (_ & Hready & _).
  apply Hready; vm_compute; reflexivity.
Defined.

(** Bridge 0 connects.  New content arrives: bridge 0 is closed, and the
    setup for the new content fails because the iframe document cannot be
    accessed.  Then the guest of bridge 0 reports [initialized]: the
    component is ready although the current setup has failed. *)
Lemma C2_stale_handshake_counterexample :
  let trace := [Commit (props_of toolA envelope) fine; LoadSettled 0 loaded;
                ConnectSettled 0 None;
                Commit (props_of toolA markup)
                  {| setup_env := no_document; close_result := None |};
                BridgeInitialized 0] in
  let s := @run example_imports trace init in
  @admissible example_imports trace init = true /\
  @handshakes_follow_connect example_imports trace init = true /\
  initialized s = true /\
  pc_of 1 s = Some Failed /\ current_bridge s = Some 1%nat /\
  error s = Some (js "Could not access iframe document") /\
  count_close 0 (log s) = 1%nat.
Proof. vm_compute. repeat apply conj; reflexivity. Qed.

Section Teardown.
Context `{Imports}.

Lemma commit_teardown env p p0 b s :
  closes_accounted s ->
  phase s = Mounted p0 -> cleanup s = Some (Some b) ->
  setup_deps p <> setup_deps p0 ->
  let s' := commit env p s in
  count_close b (log s) = 0%nat /\ count_close b (log s') = 1%nat /\
  bridgeRef s' = None /\ initialized s' = false /\
  current_bridge s' <> Some b.
Proof.
  intros Hacc Hph Hc Hne. pose proof (accounted_commit env p s Hacc) as Hacc'.
  destruct Hacc as (_ & Hcur & _).
  assert (current_bridge s = Some b) as Hcb by (unfold current_bridge; by rewrite Hc).
  destruct (Hcur b Hcb) as [Hlt H0].
  cut (let s' := commit env p s in
       bridgeRef s' = None /\ initialized s' = false /\
       current_bridge s' <> Some b /\ (b < length (sessions s'))%nat).
  { simpl. intros (? & ? & ? & ?). repeat apply conj; try done.
    destruct Hacc' as (Hone' & _). by apply Hone'. }
  unfold commit. rewrite Hph.
  rewrite bool_decide_false by congruence. simpl.
  set (s0 := with_iframeRef _ (with_phase (Mounted p) s)).
  destruct (run_cleanup_shape (close_result env) s0)
    as (Hp1 & Hs1 & _ & [[Hn _]|(Hc1 & Hb1 & Hi1 & _)]);
    [simpl in Hn; congruence|].
  specialize (Hi1 eq_refl).
  set (s1 := run_cleanup (close_result env) s0) in *.
  assert (exists s2, (if negb (bool_decide (fetch_deps p0 = fetch_deps p))
                      then fetch_effect p s1 else s1) = s2 /\
            bridgeRef s2 = None /\ initialized s2 = false /\
            sessions s2 = sessions s) as (s2 & -> & Hb2 & Hi2 & Hs2).
  { destruct (negb _); [|by exists s1].
    destruct (fetch_effect_shape p s1) as (Hi & Hb & _ & _ & _ & Hs & _).
    eexists; split; [done|]. by rewrite Hi, Hb, Hs. }
  destruct (setup_effect_shape (setup_env env) p s2)
    as (Hi & Hb & _ & [(Hs & Hcb' & _)|(pc & acts & client & _ & Hs & Hc' & _)]).
  - rewrite Hi, Hb, Hs, Hcb', Hs2. by repeat apply conj.
  - rewrite Hi, Hb, Hs, length_app, Hs2. unfold current_bridge. rewrite Hc', Hs2.
    repeat apply conj; try done; [|lia]. intros [= <-]. lia.
Qed.

Lemma unmount_teardown close p0 b s :
  closes_accounted s ->
  phase s = Mounted p0 -> cleanup s = Some (Some b) ->
  let s' := unmount close s in
  count_close b (log s) = 0%nat /\ count_close b (log s') = 1%nat /\
  bridgeRef s' = None /\ cleanup s' = None /\ phase s' = Unmounted.
Proof.
  intros Hacc Hph Hc. destruct Hacc as (_ & Hcur & _).
  assert (current_bridge s = Some b) as Hcb by (unfold current_bridge; by rewrite Hc).
  destruct (Hcur b Hcb) as [_ H0].
  unfold unmount. rewrite Hph. simpl.
  destruct (run_cleanup_shape close s)
    as (_ & _ & _ & [[Hn _]|(Hc1 & Hb1 & _ & _ & Hl)]); [congruence|].
  rewrite Hcb in Hl. repeat apply conj; try done.
  destruct Hl as [-> | ->]; simpl; rewrite Nat.eqb_refl, H0; done.
Qed.

Lemma commit_same_deps env p p0 s :
  phase s = Mounted p0 -> setup_deps p = setup_deps p0 ->
  let s' := commit env p s in
  (forall b, count_close b (log s') = count_close b (log s)) /\
  sessions s' = sessions s /\ cleanup s' = cleanup s /\
  bridgeRef s' = bridgeRef s /\ initialized s' = initialized s.
Proof.
  intros Hph Heq. unfold commit. rewrite Hph.
  rewrite bool_decide_true by done. simpl.
  destruct (negb _); [|done].
  destruct (fetch_effect_shape p
              (with_iframeRef (truthy_str (getToolUiResourceUri (tool p)))
                 (with_phase (Mounted p) s)))
    as (Hi & Hb & _ & Hc & _ & Hs & acts & Hl & Ha).
  repeat apply conj; try done.
  intros b. by rewrite Hl, count_close_app, count_close_neutral.
Qed.

End Teardown.

(** C1 (as amended): in every execution no bridge is closed twice, and
    whenever a bridge is constructed - bridges are numbered in the order
    of their construction - every bridge constructed before it has
    already been closed exactly once.  When the setup effect is torn
    down - the resource content or the client changes, or the component
    unmounts - and its [bridge] variable holds a bridge, [close()] is
    called on that bridge exactly once, and the bridge reference and the
    [initialized] flag are reset whether or not [close()] fails.  A
    commit that changes neither the resource content nor the client, such
    as a change of tool alone, closes nothing and starts no setup. *)
Theorem C1_close_once_before_next_setup `{Imports} (s : State) :
  reachable s ->
  (forall b, (count_close b (log s) <= 1)%nat) /\
  (forall l1 l2 b' client d,
      log s = l1 ++ NewAppBridge b' client d :: l2 ->
      b' = count_new l2 /\
      (forall b client' d', In (NewAppBridge b client' d') l2 -> (b < b')%nat) /\
      (forall b, (b < b')%nat -> count_close b l2 = 1%nat)) /\
  (forall b p0 p env,
      phase s = Mounted p0 -> cleanup s = Some (Some b) ->
      setup_deps p <> setup_deps p0 ->
      let s' := step (Commit p env) s in
      count_close b (log s) = 0%nat /\ count_close b (log s') = 1%nat /\
      bridgeRef s' = None /\ initialized s' = false /\
      current_bridge s' <> Some b) /\
  (forall b p0 close,
      phase s = Mounted p0 -> cleanup s = Some (Some b) ->
      let s' := step (Unmount close) s in
      count_close b (log s) = 0%nat /\ count_close b (log s') = 1%nat /\
      bridgeRef s' = None /\ cleanup s' = None /\ phase s' = Unmounted) /\
  (forall p0 p env,
      phase s = Mounted p0 -> setup_deps p = setup_deps p0 ->
      let s' := step (Commit p env) s in
      (forall b, count_close b (log s') = count_close b (log s)) /\
      sessions s' = sessions s /\ cleanup s' = cleanup s /\
      bridgeRef s' = bridgeRef s /\ initialized s' = initialized s).
Proof.
  intros Hr. pose proof (accounted_reachable s Hr) as Hacc.
  repeat apply conj.
  - intros b. destruct Hacc as (Hone & Hcur & Hout & _).
    destruct (decide (b < length (sessions s))%nat) as [Hlt|Hge].
    + destruct (decide (current_bridge s = Some b)) as [Hc|Hc].
      * destruct (Hcur b Hc) as [_ ->]. lia.
      * rewrite Hone by done. lia.
    + rewrite Hout by lia. lia.
  - intros l1 l2 b' client d Hl. destruct Hacc as (_ & _ & _ & _ & Hord & _).
    rewrite Hl in Hord. by eapply closed_before_new_split.
  - intros. by eapply commit_teardown.
  - intros. by eapply unmount_teardown.
  - intros. by eapply commit_same_deps.
Qed.

Lemma C1_close_once_before_next_setup_witness :
  count_close 0
    (log (@step example_imports (Commit (props_of toolB markup) fine)
            (@run example_imports until_ready init))) = 1%nat.
Proof.
  destruct (@C1_close_once_before_next_setup example_imports
              (@run example_imports until_ready init))
    as (_ & _ & Hcommit & _).
  - apply reachable_run; [constructor|vm_compute; reflexivity].
  - apply (Hcommit 0%nat (props_of toolA envelope) (props_of toolB markup) fine);
      vm_compute; [reflexivity|reflexivity|discriminate].
Defined.

(** Tool A is ready over bridge 0; the user selects tool B, which shares
    A's UI resource, so the renderer receives the same content and
    client.  No [close()] is called on bridge 0: the log and the sessions
    are unchanged. *)
Lemma C1_tool_change_counterexample :
  let s := @run example_imports until_ready init in
  let s' := @step example_imports (Commit (props_of toolB envelope) fine) s in
  @admissible example_imports (until_ready ++ [Commit (props_of toolB envelope) fine])
    init = true /\
  @handshakes_follow_connect example_imports
    (until_ready ++ [Commit (props_of toolB envelope) fine]) init = true /\
  initialized s = true /\ cleanup s = Some (Some 0%nat) /\
  renderer_props tab_props tab_with_A = Some (props_of toolA envelope) /\
  renderer_props tab_props (select_tool toolB tab_with_A)
    = Some (props_of toolB envelope) /\
  name toolB <> name toolA /\
  count_close 0 (log s') = 0%nat /\ log s' = log s /\ sessions s' = sessions s /\
  initialized s' = true /\ bridgeRef s' = Some 0%nat.
Proof. vm_compute. repeat apply conj; try reflexivity. discriminate. Qed.

(** * AppsTab *)

Section TabFacts.
Context `{Imports}.

Lemma find_by_name_none sel (l : list Tool) :
  (forall t, In t l -> name t <> name sel) ->
  List.find (fun t => str_eqb (name t) (name sel)) l = None.
Proof.
  intros Hall. destruct (List.find _ l) as [t|] eqn:Hf; [|done].
  apply List.find_some in Hf as [Hin Heq].
  unfold str_eqb in Heq. apply bool_decide_eq_true in Heq.
  by destruct (Hall t Hin).
Qed.

Lemma find_by_name_some sel (l : list Tool) t :
  In t l -> name t = name sel ->
  exists t', List.find (fun t => str_eqb (name t) (name sel)) l = Some t'.
Proof.
  intros Hin Heq. destruct (List.find _ l) as [t'|] eqn:Hf; [by exists t'|].
  pose proof (List.find_none _ _ Hf t Hin) as Hn. simpl in Hn.
  unfold str_eqb in Hn. by rewrite bool_decide_true in Hn.
Qed.

End TabFacts.

(** C10: when the effect on the tools list runs and no tool with UI
    metadata carries the selected tool's name, the selection is reset to
    none; the tab then renders no renderer, React unmounts the instance
    that was there, and unmounting closes the bridge it held.  A
    selection whose name is still listed is kept. *)
Theorem C10_selection_reset_when_tool_removed `{Imports} (tp : TabProps)
    (st : TabState) (sel : Tool) :
  selectedTool st = Some sel ->
  ((forall t, In t (tools tp) -> hasUIMetadata t = true -> name t <> name sel) ->
   let st' := filter_effect tp st in
   appTools st' = List.filter hasUIMetadata (tools tp) /\
   selectedTool st' = None /\
   renderer_props tp st' = None /\
   (forall before env,
       child_event (Some before) (renderer_props tp st') env
       = Some (Unmount (close_result env))) /\
   (forall s p0 b close,
       reachable s -> phase s = Mounted p0 -> cleanup s = Some (Some b) ->
       count_close b (log (step (Unmount close) s)) = 1%nat /\
       phase (step (Unmount close) s) = Unmounted)) /\
  ((exists t, In t (tools tp) /\ hasUIMetadata t = true /\ name t = name sel) ->
   selectedTool (filter_effect tp st) = Some sel).
Proof.
  intros Hsel. split.
  - intros Hgone.
    assert (filter_effect tp st
            = {| appTools := List.filter hasUIMetadata (tools tp);
                 selectedTool := None |}) as ->.
    { unfold filter_effect. simpl. rewrite Hsel.
      rewrite find_by_name_none; [done|].
      intros t Hin. apply List.filter_In in Hin as [? ?]. by apply Hgone. }
    repeat apply conj; try done.
    intros s p0 b close Hr Hph Hc.
    destruct (unmount_teardown close p0 b s (accounted_reachable s Hr) Hph Hc)
      as (_ & ? & _ & _ & ?).
    done.
  - intros (t & Hin & Hui & Hname). unfold filter_effect. simpl. rewrite Hsel.
    destruct (find_by_name_some sel (List.filter hasUIMetadata (tools tp)) t)
      as [t' ->]; [|done..].
    apply List.filter_In. done.
Qed.

Lemma C10_selection_reset_when_tool_removed_witness :
  selectedTool (filter_effect tab_props_without_B tab_with_B) = None /\
  selectedTool (filter_effect tab_props tab_with_B) = Some toolB.
Proof.
  destruct (@C10_selection_reset_when_tool_removed example_imports
              tab_props_without_B tab_with_B toolB eq_refl) as [Hreset _].
  destruct (@C10_selection_reset_when_tool_removed example_imports
              tab_props tab_with_B toolB eq_refl) as [_ Hkept].
  split.
  - apply Hreset. intros t [<-|[<-|[]]]; vm_compute; discriminate.
  - apply Hkept. exists toolB. repeat split; vm_compute; auto.
Defined.

(** * AppRenderer: further properties *)

Section Exact.
Context `{Imports}.

(** The outcomes of the first segment of [setupApp], call by call. *)
Lemma setupApp_exact env client content s :
  current_bridge s = None ->
  let s' := fst (setupApp env client content s) in
  let b := length (sessions s) in
  (loading s' = true -> loading s = true) /\
  (error s' = None -> error s = None) /\
  ((construct_result env <> None /\ sessions s' = sessions s /\
    cleanup s' = cleanup s /\ log s' = ConsoleError :: log s) \/
   (construct_result env = None /\ cleanup s' = Some (Some b) /\
    ((sessions s' = sessions s ++ [Failed] /\
      log s' = ConsoleError :: NewAppBridge b client (dark env) :: log s) \/
     (sessions s' = sessions s ++ [AwaitLoad] /\
      loading s' = loading s /\ error s' = error s /\
      has_document env = true /\ write_result env = None /\
      exists v, resolveContent content = Normal v /\
        log s' = (if has_window env then [ListenLoad b] else []) ++
                 DocWrite b v :: NewAppBridge b client (dark env) :: log s)))).
Proof.
  destruct (resolveContent_total content) as [v Hv].
  destruct s as [ph ld er ini br ifr cl ss lg]. intros Hcb.
  run_M. rewrite Hv.
  destruct (construct_result env) eqn:Hc, (has_document env) eqn:Hd,
    (write_result env) eqn:Hw, (has_window env) eqn:Hwin;
    state_norm; rewrite ?Hcb; destruct ph; rewrite ?list_insert_end.
  all: repeat apply conj; try done.
  all: first [ left; by repeat apply conj
             | right; repeat apply conj; try done; left; by repeat apply conj
             | right; repeat apply conj; try done; right;
               repeat apply conj; try done; by exists v ].
Qed.

Lemma after_load_exact b env s :
  let s' := fst (setupApp_after_load b env s) in
  initialized s' = initialized s /\ bridgeRef s' = bridgeRef s /\
  phase s' = phase s /\ cleanup s' = cleanup s /\
  (loading s' = true -> loading s = true) /\
  (error s' = None -> error s = None) /\
  ((window_after_load env = true /\ transport_result env = None /\
    sessions s' = <[b := AwaitConnect]> (sessions s) /\
    loading s' = loading s /\ error s' = error s /\
    log s' = Connect b :: NewTransport b :: log s) \/
   ((window_after_load env = false \/ transport_result env <> None) /\
    sessions s' = <[b := Failed]> (sessions s) /\
    log s' = ConsoleError :: log s)).
Proof.
  destruct s as [ph ld er ini br ifr cl ss lg]. run_M.
  destruct (window_after_load env), (transport_result env);
    state_norm; destruct ph; repeat apply conj; try done.
  all: first [ left; by repeat apply conj
             | right; repeat apply conj; try done; by left
             | right; repeat apply conj; try done; by right ].
Qed.

Lemma after_connect_exact b result s :
  let s' := fst (setupApp_after_connect b result s) in
  initialized s' = initialized s /\ phase s' = phase s /\
  cleanup s' = cleanup s /\
  (loading s' = true -> loading s = true) /\
  (error s' = None -> error s = None) /\
  ((result = None /\ sessions s' = <[b := Connected]> (sessions s) /\
    bridgeRef s' = Some b /\ loading s' = loading s /\ error s' = error s /\
    log s' = log s) \/
   (exists err, result = Some err /\
    sessions s' = <[b := Failed]> (sessions s) /\
    bridgeRef s' = bridgeRef s /\ log s' = ConsoleError :: log s /\
    (is_unmounted s = false ->
     error s' = Some (error_message_of err) /\ loading s' = false))).
Proof.
  destruct s as [ph ld er ini br ifr cl ss lg]. run_M.
  destruct result as [err|]; state_norm; destruct ph; repeat apply conj; try done.
  all: first [ left; by repeat apply conj
             | right; exists err; by repeat apply conj ].
Qed.

Lemma setup_effect_exact env p s :
  current_bridge s = None ->
  let s' := setup_effect env p s in
  let b := length (sessions s) in
  initialized s' = initialized s /\ bridgeRef s' = bridgeRef s /\
  phase s' = phase s /\
  (loading s' = true -> loading s = true) /\
  (error s' = None -> error s = None) /\
  ((sessions s' = sessions s /\ current_bridge s' = None /\
    (log s' = log s \/ log s' = ConsoleError :: log s)) \/
   (exists client c content,
      mcpClient p = Some client /\ resourceContent p = c :: content /\
      iframeRef s = true /\ construct_result env = None /\
      cleanup s' = Some (Some b) /\
      ((sessions s' = sessions s ++ [Failed] /\
        log s' = ConsoleError :: NewAppBridge b client (dark env) :: log s) \/
       (sessions s' = sessions s ++ [AwaitLoad] /\
        loading s' = loading s /\ error s' = error s /\
        exists v, resolveContent (c :: content) = Normal v /\
          log s' = (if has_window env then [ListenLoad b] else []) ++
                   DocWrite b v :: NewAppBridge b client (dark env) :: log s)))).
Proof.
  intros Hcb. unfold setup_effect.
  destruct (resourceContent p) as [|c content] eqn:Hcontent;
    [| destruct (iframeRef s) eqn:Hi; [destruct (mcpClient p) as [client|] eqn:Hcl|] ];
    try (simpl; repeat apply conj; try done; left;
         unfold current_bridge; simpl; repeat apply conj; try done; by left).
  destruct (setupApp_exact env client (c :: content) (with_cleanup (Some None) s))
    as (Hld & Her & Hcases); [done|].
  destruct (setupApp_shape env client (c :: content) (with_cleanup (Some None) s))
    as (Hin & Hb & Hp & _); [done|].
  simpl in *. repeat apply conj; try done.
  destruct Hcases as [(_ & Hs & Hc & Hl)|(Hcr & Hc & Hcases)].
  - left. unfold current_bridge. rewrite Hc. repeat apply conj; try done. by right.
  - right. exists client, c, content. repeat apply conj; try done.
    destruct Hcases as [[? ?]|(? & ? & ? & _ & _ & v & ? & ?)]; [by left|right].
    repeat apply conj; try done. by exists v.
Qed.

End Exact.

Section CommitPieces.
Context `{Imports}.

Lemma fetch_effect_exact p s :
  let s' := fetch_effect p s in
  initialized s' = initialized s /\ bridgeRef s' = bridgeRef s /\
  phase s' = phase s /\ cleanup s' = cleanup s /\ iframeRef s' = iframeRef s /\
  sessions s' = sessions s /\
  ((truthy_str (getToolUiResourceUri (tool p)) = false /\ s' = s) \/
   (exists c u, getToolUiResourceUri (tool p) = Some (c :: u) /\
      log s' = ReadResource (onReadResource p) (c :: u) :: log s /\
      (is_unmounted s = false -> loading s' = true /\ error s' = None))).
Proof.
  destruct s as [ph ld er ini br ifr cl ss lg]. unfold fetch_effect.
  destruct (getToolUiResourceUri (tool p)) as [[|c u]|];
    state_norm; destruct ph; repeat apply conj; try done.
  all: first [ by left | right; exists c, u; by repeat apply conj ].
Qed.

Lemma run_cleanup_exact close s :
  let s' := run_cleanup close s in
  phase s' = phase s /\ sessions s' = sessions s /\ iframeRef s' = iframeRef s /\
  loading s' = loading s /\ error s' = error s /\
  ((cleanup s = None /\ s' = s) \/
   (exists bridge, cleanup s = Some bridge /\
      cleanup s' = None /\ bridgeRef s' = None /\
      (is_unmounted s = false -> initialized s' = false) /\
      match bridge with
      | Some b => log s' = Close b :: log s \/
                  (close <> None /\ log s' = ConsoleError :: Close b :: log s)
      | None => log s' = log s
      end)).
Proof.
  destruct s as [ph ld er ini br ifr cl ss lg]. unfold run_cleanup.
  state_norm. destruct cl as [[b|]|]; [destruct close| |]; destruct ph;
    repeat apply conj; try done.
  all: first [ by left
             | right; eexists; repeat apply conj; try done; by left
             | right; eexists; repeat apply conj; try done; by right
             | right; eexists; by repeat apply conj ].
Qed.

(** A commit is the cleanup, the fetch effect and the setup effect, each
    run when its trigger holds. *)
Lemma commit_pieces env p s :
  commit env p s =
  match phase s with
  | Unmounted => s
  | _ =>
      let s0 := with_iframeRef (truthy_str (getToolUiResourceUri (tool p)))
                  (with_phase (Mounted p) s) in
      let s1 := match phase s with
                | Mounted _ =>
                    if setup_runs p s then run_cleanup (close_result env) s0 else s0
                | _ => s0
                end in
      let s2 := if fetch_runs p s then fetch_effect p s1 else s1 in
      if setup_runs p s then setup_effect (setup_env env) p s2 else s2
  end.
Proof.
  unfold commit, setup_runs, fetch_runs. by destruct (phase s) as [|p0|].
Qed.

Lemma commit_pieces_mounted env p s :
  is_unmounted s = false ->
  commit env p s =
  let s0 := with_iframeRef (truthy_str (getToolUiResourceUri (tool p)))
              (with_phase (Mounted p) s) in
  let s1 := match phase s with
            | Mounted _ =>
                if setup_runs p s then run_cleanup (close_result env) s0 else s0
            | _ => s0
            end in
  let s2 := if fetch_runs p s then fetch_effect p s1 else s1 in
  if setup_runs p s then setup_effect (setup_env env) p s2 else s2.
Proof.
  intros Hm. rewrite commit_pieces. unfold is_unmounted in Hm.
  by destruct (phase s).
Qed.

End CommitPieces.

Section CommitStages.
Context `{Imports}.

(** The state between the cleanup and the effects of a commit. *)
Lemma commit_stage_cleanup env p s :
  is_unmounted s = false ->
  (phase s = Initial -> cleanup s = None) ->
  let s0 := with_iframeRef (truthy_str (getToolUiResourceUri (tool p)))
              (with_phase (Mounted p) s) in
  let s1 := match phase s with
            | Mounted _ =>
                if setup_runs p s then run_cleanup (close_result env) s0 else s0
            | _ => s0
            end in
  phase s1 = Mounted p /\
  iframeRef s1 = truthy_str (getToolUiResourceUri (tool p)) /\
  sessions s1 = sessions s /\ loading s1 = loading s /\ error s1 = error s /\
  (setup_runs p s = true -> current_bridge s1 = None) /\
  ((s1 = s0) \/
   (setup_runs p s = true /\
    exists bridge, cleanup s = Some bridge /\
      cleanup s1 = None /\ bridgeRef s1 = None /\ initialized s1 = false /\
      match bridge with
      | Some b => log s1 = Close b :: log s \/
                  (close_result env <> None /\
                   log s1 = ConsoleError :: Close b :: log s)
      | None => log s1 = log s
      end)).
Proof.
  intros Hm Hi. simpl.
  set (s0 := with_iframeRef _ (with_phase (Mounted p) s)).
  destruct (phase s) as [|p0|] eqn:Hph.
  - repeat apply conj; try done; [|by left].
    intros _. unfold current_bridge. simpl. by rewrite Hi.
  - destruct (setup_runs p s) eqn:Hr; [|repeat apply conj; try done; by left].
    destruct (run_cleanup_exact (close_result env) s0)
      as (Hp & Hs & Hif & Hl & He & [[Hn ->]|(bridge & Hc & Hc' & Hb & Hini & Hlog)]).
    + repeat apply conj; try done; [|by left].
      intros _. unfold current_bridge. by rewrite Hn.
    + repeat apply conj; try done.
      * intros _. unfold current_bridge. by rewrite Hc'.
      * right. split; [done|]. exists bridge. repeat apply conj; try done.
        by apply Hini.
  - unfold is_unmounted in Hm. by rewrite Hph in Hm.
Qed.

End CommitStages.

Section Counting.
Context `{Imports}.

Lemma count_read_app l1 l2 :
  count_read (l1 ++ l2) = (count_read l1 + count_read l2)%nat.
Proof.
  induction l1 as [|a l1 IH]; [done|]. destruct a; simpl; rewrite ?IH; lia.
Qed.

(** Events other than commits emit nothing that belongs to the first
    segment of a setup. *)
Lemma step_other_log e s :
  (forall p env, e <> Commit p env) ->
  exists acts, log (step e s) = acts ++ log s /\
    Forall (fun a => match a with
                     | ReadResource _ _ | NewAppBridge _ _ _ | DocWrite _ _
                     | ListenLoad _ => False
                     | _ => True
                     end) acts.
Proof.
  intros Hne. destruct e as [p env|close|b env|b result|b|b m]; simpl.
  - by destruct (Hne p env).
  - unfold unmount. destruct (phase s); try by exists [].
    destruct (run_cleanup_exact close s)
      as (_ & _ & _ & _ & _ & [[_ ->]|(bridge & _ & _ & _ & _ & Hl)]);
      [by exists []|]. simpl.
    destruct bridge as [b|]; [destruct Hl as [->|[_ ->]]|rewrite Hl].
    + exists [Close b]. by repeat constructor.
    + exists [ConsoleError; Close b]. by repeat constructor.
    + by exists [].
  - destruct (pc_is b AwaitLoad s); [|by exists []].
    destruct (after_load_exact b env s)
      as (_ & _ & _ & _ & _ & _ & [(_ & _ & _ & _ & _ & ->)|(_ & _ & ->)]).
    + exists [Connect b; NewTransport b]. by repeat constructor.
    + exists [ConsoleError]. by repeat constructor.
  - destruct (pc_is b AwaitConnect s); [|by exists []].
    destruct (after_connect_exact b result s)
      as (_ & _ & _ & _ & _ & [(_ & _ & _ & _ & _ & ->)|(err & _ & _ & _ & -> & _)]).
    + by exists [].
    + exists [ConsoleError]. by repeat constructor.
  - case_bool_decide; [|by exists []].
    destruct s as [ph ld er ini br ifr cl ss lg]. unfold on_initialized.
    state_norm. exists [ConsoleLog]. destruct ph; by repeat constructor.
  - case_bool_decide; [|by exists []].
    destruct s as [ph ld er ini br ifr cl ss lg]. unfold on_error.
    state_norm. exists [ConsoleError]. destruct ph; by repeat constructor.
Qed.

Lemma reachable_initial_cleanup s :
  reachable s -> phase s = Initial -> cleanup s = None.
Proof. intros Hr. by destruct (accounted_reachable s Hr) as (_ & _ & _ & _ & _ & ?). Qed.

(** The calls of a commit, newest first: those of the setup effect, the
    read of the fetch effect, those of the cleanup. *)
Lemma commit_log env p s :
  is_unmounted s = false ->
  (phase s = Initial -> cleanup s = None) ->
  let n := length (sessions s) in
  exists closing setting,
    log (commit env p s) =
      setting ++
      (if fetch_runs p s
       then match getToolUiResourceUri (tool p) with
            | Some (c :: u) => [ReadResource (onReadResource p) (c :: u)]
            | _ => []
            end
       else []) ++ closing ++ log s /\
    Forall (fun a => match a with
                     | Close _ | ConsoleError => True
                     | _ => False
                     end) closing /\
    ((setting = [] /\ sessions (commit env p s) = sessions s) \/
     (setting = [ConsoleError] /\ sessions (commit env p s) = sessions s) \/
     (setup_runs p s = true /\
      truthy_str (getToolUiResourceUri (tool p)) = true /\
      construct_result (setup_env env) = None /\
      exists client c content,
        mcpClient p = Some client /\ resourceContent p = c :: content /\
        ((setting = [ConsoleError;
                     NewAppBridge n client (dark (setup_env env))] /\
          sessions (commit env p s) = sessions s ++ [Failed]) \/
         exists v, resolveContent (c :: content) = Normal v /\
           setting = (if has_window (setup_env env) then [ListenLoad n] else [])
                     ++ [DocWrite n v;
                         NewAppBridge n client (dark (setup_env env))] /\
           sessions (commit env p s) = sessions s ++ [AwaitLoad]))).
Proof.
  intros Hm Hi. simpl. rewrite (commit_pieces_mounted env p s Hm).
  pose proof (commit_stage_cleanup env p s Hm Hi) as Hstage.
  cbv zeta in *.
  match goal with |- context [fetch_effect p ?x] => set (s1 := x) in * end.
  destruct Hstage as (_ & Hif1 & Hs1 & _ & _ & Hcb1 & Hlog1).
  assert (exists closing, log s1 = closing ++ log s /\
            Forall (fun a => match a with
                             | Close _ | ConsoleError => True
                             | _ => False
                             end) closing) as (closing & Hl1 & Hclosing).
  { destruct Hlog1 as [->|(_ & bridge & _ & _ & _ & _ & Hl)]; [by exists []|].
    destruct bridge as [b|]; [destruct Hl as [->|[_ ->]]|rewrite Hl].
    - exists [Close b]. by repeat constructor.
    - exists [ConsoleError; Close b]. by repeat constructor.
    - by exists []. }
  set (reading := if fetch_runs p s
                  then match getToolUiResourceUri (tool p) with
                       | Some (c :: u) => [ReadResource (onReadResource p) (c :: u)]
                       | _ => []
                       end
                  else []).
  set (s2 := if fetch_runs p s then fetch_effect p s1 else s1).
  assert (log s2 = reading ++ log s1 /\ cleanup s2 = cleanup s1 /\
          iframeRef s2 = iframeRef s1 /\ sessions s2 = sessions s1)
    as (Hl2 & Hc2 & Hif2 & Hs2).
  { unfold s2, reading. destruct (fetch_runs p s); [|done].
    destruct (fetch_effect_exact p s1)
      as (_ & _ & _ & ? & ? & ? & [[Ht ->]|(c & u & Hu & Hl & _)]).
    - by destruct (getToolUiResourceUri (tool p)) as [[|]|].
    - by rewrite Hu. }
  exists closing.
  destruct (setup_runs p s) eqn:Hsr;
    [|exists []; rewrite Hl2, Hl1, Hs2, Hs1; split; [done|]; split; [done|by left]].
  destruct (setup_effect_exact (setup_env env) p s2)
    as (_ & _ & _ & _ & _ & Hcases).
  { unfold current_bridge in *. rewrite Hc2. by apply Hcb1. }
  rewrite Hs2, Hs1, Hif2, Hif1 in Hcases.
  destruct Hcases as [(Hs' & _ & [Hl| Hl])
                     |(client & c & content & Hcl & Hco & Hif & Hcr & _ &
                       [[Hs' Hl]|(Hs' & _ & _ & v & Hv & Hl)])].
  - exists []. rewrite Hl, Hl2, Hl1. split; [done|]. split; [done|by left].
  - exists [ConsoleError]. rewrite Hl, Hl2, Hl1. split; [done|].
    split; [done|]. right. by left.
  - exists [ConsoleError;
            NewAppBridge (length (sessions s)) client (dark (setup_env env))].
    rewrite Hl, Hl2, Hl1. split; [done|]. split; [done|].
    right; right. repeat apply conj; try done.
    exists client, c, content. repeat apply conj; try done. by left.
  - exists ((if has_window (setup_env env)
             then [ListenLoad (length (sessions s))] else [])
            ++ [DocWrite (length (sessions s)) v;
                NewAppBridge (length (sessions s)) client (dark (setup_env env))]).
    rewrite Hl, Hl2, Hl1. split; [by rewrite <- app_assoc|]. split; [done|].
    right; right. repeat apply conj; try done.
    exists client, c, content. repeat apply conj; try done. right. by exists v.
Qed.

End Counting.

Section CountingFacts.
Context `{Imports}.

Lemma closing_counts closing :
  Forall (fun a => match a with
                   | Close _ | ConsoleError => True
                   | _ => False
                   end) closing ->
  count_read closing = 0%nat /\ count_new closing = 0%nat.
Proof. induction 1 as [|a l Ha _ [? ?]]; [done|]. by destruct a. Qed.

Lemma other_counts acts :
  Forall (fun a => match a with
                   | ReadResource _ _ | NewAppBridge _ _ _ | DocWrite _ _
                   | ListenLoad _ => False
                   | _ => True
                   end) acts ->
  count_read acts = 0%nat /\ count_new acts = 0%nat.
Proof. induction 1 as [|a l Ha _ [? ?]]; [done|]. by destruct a. Qed.

End CountingFacts.

(** X1: the resource is read exactly when a commit runs the fetch effect
    (on mount, or after [resourceUri] or [onReadResource] changed) with a
    non-empty resource URI: once, with that URI and the callback of that
    render.  A re-render with the same URI and callback, and every other
    event, reads nothing. *)
Theorem X1_resource_read_once_per_uri `{Imports} (s : State) :
  reachable s ->
  (forall p env,
      count_read (log (step (Commit p env) s)) =
      (count_read (log s) +
       (if (fetch_runs p s && truthy_str (getToolUiResourceUri (tool p)))%bool
        then 1 else 0))%nat) /\
  (forall p env c u,
      fetch_runs p s = true -> getToolUiResourceUri (tool p) = Some (c :: u) ->
      In (ReadResource (onReadResource p) (c :: u)) (log (step (Commit p env) s))) /\
  (forall e, (forall p env, e <> Commit p env) ->
             count_read (log (step e s)) = count_read (log s)).
Proof.
  intros Hr.
  assert (forall p, fetch_runs p s = true -> is_unmounted s = false) as Hfm.
  { intros p. unfold fetch_runs, is_unmounted. by destruct (phase s). }
  repeat apply conj.
  - intros p env. simpl. destruct (is_unmounted s) eqn:Hm.
    { unfold commit, fetch_runs. unfold is_unmounted in Hm.
      destruct (phase s); try done; simpl; lia. }
    destruct (commit_log env p s Hm (reachable_initial_cleanup s Hr))
      as (closing & setting & -> & Hclosing & Hsetting).
    rewrite !count_read_app. destruct (closing_counts _ Hclosing) as [-> _].
    assert (count_read setting = 0%nat) as ->.
    { destruct Hsetting as [[-> _]|[[-> _]|(_ & _ & _ & client & c & content & _ & _ &
                                    [[-> _]|(v & _ & -> & _)])]]; try done.
      by destruct (has_window _). }
    destruct (fetch_runs p s); [|simpl; lia].
    destruct (getToolUiResourceUri (tool p)) as [[|c u]|]; simpl; lia.
  - intros p env c u Hf Hu. simpl.
    destruct (commit_log env p s (Hfm p Hf) (reachable_initial_cleanup s Hr))
      as (closing & setting & -> & _). rewrite Hf, Hu.
    apply in_or_app. right. by left.
  - intros e Hne. destruct (step_other_log e s Hne) as (acts & -> & Ha).
    rewrite count_read_app. by destruct (other_counts _ Ha) as [-> _].
Qed.

Lemma X1_resource_read_once_per_uri_witness :
  In (ReadResource 0 widget_uri)
     (log (@step example_imports (Commit (props_of toolA []) fine) init)).
Proof.
  destruct (@X1_resource_read_once_per_uri example_imports init) as (_ & Hin & _).
  - constructor.
  - apply (Hin (props_of toolA []) fine 117 (tl widget_uri)); reflexivity.
Defined.

(** X2: a bridge is constructed only by a commit that runs the setup
    effect (on mount, or after [resourceContent] or [mcpClient] changed)
    with non-empty content, a client and a rendered iframe; such a commit
    constructs one bridge.  No other event constructs one: a failed or
    unanswered setup is not retried. *)
Theorem X2_bridge_constructed_only_by_setup_commit `{Imports} (s : State)
    (e : Event) :
  reachable s ->
  count_new (log (step e s)) <> count_new (log s) ->
  exists p env client c content,
    e = Commit p env /\ setup_runs p s = true /\
    mcpClient p = Some client /\ resourceContent p = c :: content /\
    truthy_str (getToolUiResourceUri (tool p)) = true /\
    construct_result (setup_env env) = None /\
    count_new (log (step e s)) = S (count_new (log s)) /\
    In (NewAppBridge (length (sessions s)) client (dark (setup_env env)))
       (log (step e s)).
Proof.
  intros Hr Hne.
  assert ((forall p env, e <> Commit p env) \/ exists p env, e = Commit p env)
    as [Hother|(p & env & ->)].
  { destruct e; try (left; intros; discriminate). right. by eexists _, _. }
  { destruct (step_other_log e s Hother) as (acts & Hl & Ha).
    rewrite Hl, count_new_app in Hne. destruct (other_counts _ Ha) as [_ Hz].
    rewrite Hz in Hne. done. }
  simpl in *. destruct (is_unmounted s) eqn:Hm.
  { unfold commit in Hne. unfold is_unmounted in Hm. by destruct (phase s). }
  destruct (commit_log env p s Hm (reachable_initial_cleanup s Hr))
    as (closing & setting & Hl & Hclosing & Hsetting).
  rewrite Hl in *. rewrite !count_new_app in *.
  destruct (closing_counts _ Hclosing) as [_ Hc]. rewrite Hc in *.
  assert (count_new (if fetch_runs p s
                     then match getToolUiResourceUri (tool p) with
                          | Some (c :: u) => [ReadResource (onReadResource p) (c :: u)]
                          | _ => []
                          end
                     else []) = 0%nat) as Hrd.
  { destruct (fetch_runs p s); [|done].
    by destruct (getToolUiResourceUri (tool p)) as [[|]|]. }
  rewrite Hrd in *.
  destruct Hsetting
    as [[-> _]|[[-> _]|(Hsr & Hu & Hcr & client & c & content & Hcl & Hco & Hset)]];
    try (simpl in Hne; lia).
  exists p, env, client, c, content. repeat apply conj; try done.
  - destruct Hset as [[-> _]|(v & _ & -> & _)]; [simpl; lia|].
    rewrite count_new_app. destruct (has_window _); simpl; lia.
  - apply in_or_app. left. destruct Hset as [[-> _]|(v & _ & -> & _)]; [simpl; auto|].
    apply in_or_app. right. simpl. auto.
Qed.

Lemma X2_bridge_constructed_only_by_setup_commit_witness :
  exists p env client c content,
    Commit (props_of toolA envelope) fine = Commit p env /\
    setup_runs p init = true /\
    mcpClient p = Some client /\ resourceContent p = c :: content /\
    truthy_str (@getToolUiResourceUri example_imports (tool p)) = true /\
    construct_result (setup_env env) = None /\
    count_new (log (@step example_imports (Commit (props_of toolA envelope) fine) init))
      = S (count_new (log init)) /\
    In (NewAppBridge (length (sessions init)) client (dark (setup_env env)))
       (log (@step example_imports (Commit (props_of toolA envelope) fine) init)).
Proof.
  apply (@X2_bridge_constructed_only_by_setup_commit example_imports init
           (Commit (props_of toolA envelope) fine)).
  - constructor.
  - vm_compute. discriminate.
Defined.

Section Flags.
Context `{Imports}.

(** What a run of a segment of [setupApp] does to [loading] and
    [error], given the failure it ends with: the two updates of the
    catch block on a mounted component, nothing otherwise. *)
Lemma setupApp_outcome env client content s :
  current_bridge s = None ->
  let s' := fst (setupApp env client content s) in
  match first_failure env with
  | Some err =>
      (is_unmounted s = false ->
       error s' = Some (error_message_of err) /\ loading s' = false) /\
      (is_unmounted s = true -> loading s' = loading s /\ error s' = error s)
  | None => loading s' = loading s /\ error s' = error s
  end.
Proof.
  destruct (resolveContent_total content) as [v Hv].
  destruct s as [ph ld er ini br ifr cl ss lg]. intros Hcb.
  unfold first_failure. run_M. rewrite Hv.
  destruct (construct_result env) as [e1|] eqn:Hc, (has_document env) eqn:Hd,
    (write_result env) as [e2|] eqn:Hw, (has_window env) eqn:Hwin;
    state_norm; rewrite ?Hcb; destruct ph; rewrite ?list_insert_end;
    state_norm; done.
Qed.

Lemma after_load_outcome b env s :
  let s' := fst (setupApp_after_load b env s) in
  match load_failure env with
  | Some err =>
      (is_unmounted s = false ->
       error s' = Some (error_message_of err) /\ loading s' = false) /\
      (is_unmounted s = true -> loading s' = loading s /\ error s' = error s)
  | None => loading s' = loading s /\ error s' = error s
  end.
Proof.
  destruct s as [ph ld er ini br ifr cl ss lg]. unfold load_failure. run_M.
  destruct (window_after_load env), (transport_result env);
    state_norm; destruct ph; done.
Qed.

Lemma after_connect_outcome b result s :
  let s' := fst (setupApp_after_connect b result s) in
  match result with
  | Some err =>
      (is_unmounted s = false ->
       error s' = Some (error_message_of err) /\ loading s' = false) /\
      (is_unmounted s = true -> loading s' = loading s /\ error s' = error s)
  | None => loading s' = loading s /\ error s' = error s
  end.
Proof.
  destruct s as [ph ld er ini br ifr cl ss lg]. run_M.
  destruct result as [err|]; state_norm; destruct ph; done.
Qed.

Lemma setup_effect_outcome env p s :
  current_bridge s = None -> is_unmounted s = false ->
  let s' := setup_effect env p s in
  match (if (truthy_str (Some (resourceContent p)) && iframeRef s
             && match mcpClient p with Some _ => true | None => false end)%bool
         then first_failure env else None) with
  | Some err => error s' = Some (error_message_of err) /\ loading s' = false
  | None => loading s' = loading s /\ error s' = error s
  end.
Proof.
  intros Hcb Hm. unfold setup_effect.
  destruct (resourceContent p) as [|c content] eqn:Hcontent;
    [| destruct (iframeRef s) eqn:Hi; [destruct (mcpClient p) as [client|] eqn:Hcl|] ];
    try done.
  assert (current_bridge (with_cleanup (Some None) s) = None) as Hcb' by done.
  pose proof (setupApp_outcome env client (c :: content)
                (with_cleanup (Some None) s) Hcb') as Hout.
  simpl in *. destruct (first_failure env); [|done].
  apply Hout. by destruct s.
Qed.

(** How one event changes [loading] and [error]. *)
Lemma step_flags e s :
  reachable s ->
  let s' := step e s in
  match failure_of e s with
  | Some err =>
      (is_unmounted s = false ->
       error s' = Some (error_message_of err) /\ loading s' = false) /\
      (is_unmounted s = true -> loading s' = loading s /\ error s' = error s)
  | None =>
      (loading s' = loading s /\ error s' = error s) \/
      (exists p env c u,
          e = Commit p env /\ fetch_runs p s = true /\
          getToolUiResourceUri (tool p) = Some (c :: u) /\
          loading s' = true /\ error s' = None) \/
      (exists b, e = BridgeInitialized b /\ error s' = error s) \/
      (exists b m, e = BridgeError b m /\ loading s' = loading s /\
                   error s' = Some (match m with
                                    | [] => js "An error occurred"
                                    | _ :: _ => m
                                    end))
  end.
Proof.
  intros Hr. destruct e as [p env|close|b env|b result|b|b m]; cbn [step failure_of].
  - destruct (is_unmounted s) eqn:Hm.
    { assert (setup_starts p s = false) as ->.
      { unfold setup_starts, setup_runs. unfold is_unmounted in Hm.
        by destruct (phase s). }
      left. unfold commit. unfold is_unmounted in Hm. by destruct (phase s). }
    rewrite (commit_pieces_mounted env p s Hm).
    pose proof (commit_stage_cleanup env p s Hm (reachable_initial_cleanup s Hr))
      as Hstage.
    cbv zeta in *.
    match goal with |- context [fetch_effect p ?x] => set (s1 := x) in * end.
    destruct Hstage as (Hp1 & Hif1 & _ & Hl1 & He1 & Hcb1 & _).
    assert (is_unmounted s1 = false) as Hm1 by (unfold is_unmounted; by rewrite Hp1).
    set (s2 := if fetch_runs p s then fetch_effect p s1 else s1).
    assert (cleanup s2 = cleanup s1 /\ iframeRef s2 = iframeRef s1 /\
            phase s2 = phase s1 /\
            ((loading s2 = loading s /\ error s2 = error s) \/
             (exists c u, fetch_runs p s = true /\
                getToolUiResourceUri (tool p) = Some (c :: u) /\
                loading s2 = true /\ error s2 = None))) as (Hc2 & Hif2 & Hp2 & Hf2).
    { unfold s2. destruct (fetch_runs p s); [|repeat apply conj; try done; by left].
      destruct (fetch_effect_exact p s1)
        as (_ & _ & ? & ? & ? & _ & [[_ ->]|(c & u & Hu & _ & Hset)]).
      - repeat apply conj; try done. by left.
      - repeat apply conj; try done. right. exists c, u. destruct (Hset Hm1). done. }
    unfold setup_starts. destruct (setup_runs p s) eqn:Hsr; cbn [andb].
    + pose proof (setup_effect_outcome (setup_env env) p s2) as Hout.
      rewrite Hif2, Hif1 in Hout.
      destruct (truthy_str (Some (resourceContent p))
                && truthy_str (getToolUiResourceUri (tool p))
                && match mcpClient p with Some _ => true | None => false end)%bool;
        [destruct (first_failure (setup_env env)) as [err|]|].
      * split; [|done]. intros _. apply Hout.
        -- unfold current_bridge in *. rewrite Hc2. by apply Hcb1.
        -- unfold is_unmounted. by rewrite Hp2, Hp1.
      * destruct Hout as [Hl He].
        -- unfold current_bridge in *. rewrite Hc2. by apply Hcb1.
        -- unfold is_unmounted. by rewrite Hp2, Hp1.
        -- rewrite Hl, He.
           destruct Hf2 as [[-> ->]|(c & u & Hfr & Hu & -> & ->)]; [by left|].
           right; left. by exists p, env, c, u.
      * destruct Hout as [Hl He].
        -- unfold current_bridge in *. rewrite Hc2. by apply Hcb1.
        -- unfold is_unmounted. by rewrite Hp2, Hp1.
        -- rewrite Hl, He.
           destruct Hf2 as [[-> ->]|(c & u & Hfr & Hu & -> & ->)]; [by left|].
           right; left. by exists p, env, c, u.
    + destruct Hf2 as [[-> ->]|(c & u & Hfr & Hu & -> & ->)]; [by left|].
      right; left. by exists p, env, c, u.
  - left. unfold unmount. destruct (phase s); try done.
    destruct (run_cleanup_exact close s) as (_ & _ & _ & Hl & He & _). done.
  - destruct (pc_is b AwaitLoad s); [|by left].
    pose proof (after_load_outcome b env s) as Hout. simpl in Hout.
    destruct (load_failure env); [done|by left].
  - destruct (pc_is b AwaitConnect s); [|by left].
    pose proof (after_connect_outcome b result s) as Hout. simpl in Hout.
    destruct result; [done|by left].
  - case_bool_decide; [|by left].
    right; right; left. exists b. split; [done|].
    destruct s as [ph ld er ini br ifr cl ss lg]. unfold on_initialized.
    state_norm. by destruct ph.
  - case_bool_decide; [|by left].
    destruct s as [ph ld er ini br ifr cl ss lg]. unfold on_error.
    state_norm. destruct ph; try (by left).
    all: right; right; right; by exists b, m.
Qed.

End Flags.

(** X3: the ways in which [error] changes and the spinner is switched
    on.  The error changes, or [loading] turns from false to true, only
    when a commit runs the fetch effect with a non-empty resource URI
    and starts no setup that fails - the error is then removed and the
    spinner switched on -, when a run of [setupApp] fails - the error is
    then the message of that failure, or ["Failed to set up app"] for a
    thrown value that is not an [Error], and the spinner is off -, or
    when a bridge reports an error - the error is then its message, or
    ["An error occurred"] for an empty one. *)
Theorem X3_error_and_spinner_changes `{Imports} (s : State) (e : Event) :
  reachable s ->
  error (step e s) <> error s \/ (loading s = false /\ loading (step e s) = true) ->
  (exists p env c u,
      e = Commit p env /\ fetch_runs p s = true /\
      getToolUiResourceUri (tool p) = Some (c :: u) /\
      failure_of e s = None /\
      loading (step e s) = true /\ error (step e s) = None) \/
  (exists err,
      failure_of e s = Some err /\
      error (step e s) = Some (match err with
                               | ErrorObj message => message
                               | NonError => js "Failed to set up app"
                               end) /\
      loading (step e s) = false) \/
  (exists b m,
      e = BridgeError b m /\
      error (step e s) = Some (match m with
                               | [] => js "An error occurred"
                               | _ :: _ => m
                               end) /\
      loading (step e s) = loading s).
Proof.
  intros Hr Hchg. pose proof (step_flags e s Hr) as Hflags. cbv zeta in Hflags.
  destruct (failure_of e s) as [err|] eqn:Hfail.
  - destruct Hflags as [Hmounted Hunmounted].
    destruct (is_unmounted s) eqn:Hm.
    + destruct (Hunmounted eq_refl) as [Hl He].
      destruct Hchg as [?|[? ?]]; congruence.
    + destruct (Hmounted eq_refl) as [He Hl].
      right; left. exists err. split; [done|]. split; [|done]. by destruct err.
  - destruct Hflags as [[Hl He]|[(p & env & c & u & -> & Hf & Hu & Hl & He)
                                |[(b & -> & He)|(b & m & -> & Hl & He)]]].
    + destruct Hchg as [?|[? ?]]; congruence.
    + left. by exists p, env, c, u.
    + destruct Hchg as [?|[Hoff Hon]]; [done|].
      exfalso. revert Hon. cbn [step]. case_bool_decide; [|congruence].
      destruct s as [ph ld er ini br ifr cl ss lg]. unfold on_initialized.
      state_norm. simpl in Hoff. destruct ph; congruence.
    + right; right. by exists b, m.
Qed.

Lemma X3_error_and_spinner_changes_witness :
  let s := @run example_imports
             (until_ready ++ [BridgeError 0 (js "widget crashed")]) init in
  let e := Commit {| tool := toolA; mcpClient := Some 0%nat; onReadResource := 1%nat;
                     resourceContent := envelope |} fine in
  (exists p env c u,
      e = Commit p env /\ @fetch_runs example_imports p s = true /\
      @getToolUiResourceUri example_imports (tool p) = Some (c :: u) /\
      @failure_of example_imports e s = None /\
      loading (@step example_imports e s) = true /\
      error (@step example_imports e s) = None) \/
  (exists err,
      @failure_of example_imports e s = Some err /\
      error (@step example_imports e s)
      = Some (match err with
              | ErrorObj message => message
              | NonError => js "Failed to set up app"
              end) /\
      loading (@step example_imports e s) = false) \/
  (exists b m,
      e = BridgeError b m /\
      error (@step example_imports e s)
      = Some (match m with [] => js "An error occurred" | _ :: _ => m end) /\
      loading (@step example_imports e s) = loading s).
Proof.
  apply (@X3_error_and_spinner_changes example_imports).
  - apply reachable_run; [constructor|vm_compute; reflexivity].
  - left. vm_compute. discriminate.
Defined.

(** X4: the spinner is switched off only by a bridge's [initialized]
    callback or by a run of [setupApp] that fails, and then [error]
    holds the message of that failure, or ["Failed to set up app"] for a
    thrown value that is not an [Error]. *)
Theorem X4_spinner_off_only_by_handshake_or_failure `{Imports} (s : State)
    (e : Event) :
  reachable s ->
  loading s = true -> loading (step e s) = false ->
  (exists b, e = BridgeInitialized b) \/
  (exists err,
      failure_of e s = Some err /\
      error (step e s) = Some (match err with
                               | ErrorObj message => message
                               | NonError => js "Failed to set up app"
                               end)).
Proof.
  intros Hr Hon Hoff. pose proof (step_flags e s Hr) as Hflags.
  cbv zeta in Hflags.
  destruct (failure_of e s) as [err|] eqn:Hfail.
  - destruct Hflags as [Hmounted Hunmounted].
    destruct (is_unmounted s) eqn:Hm.
    + destruct (Hunmounted eq_refl) as [Hl He]. congruence.
    + destruct (Hmounted eq_refl) as [He Hl].
      right. exists err. split; [done|]. by destruct err.
  - destruct Hflags as [[Hl He]|[(p & env & c & u & -> & Hf & Hu & Hl & He)
                                |[(b & -> & He)|(b & m & -> & Hl & He)]]];
      try congruence.
    left. by exists b.
Qed.

Lemma X4_spinner_off_only_by_handshake_or_failure_witness :
  let s := @run example_imports
             [Commit (props_of toolA envelope) fine; LoadSettled 0 loaded] init in
  let e := ConnectSettled 0 (Some (ErrorObj (js "refused"))) in
  (exists b, e = BridgeInitialized b) \/
  (exists err,
      @failure_of example_imports e s = Some err /\
      error (@step example_imports e s)
      = Some (match err with
              | ErrorObj message => message
              | NonError => js "Failed to set up app"
              end)).
Proof.
  apply (@X4_spinner_off_only_by_handshake_or_failure example_imports).
  - apply (@reachable_run example_imports
             [Commit (props_of toolA envelope) fine; LoadSettled 0 loaded] init);
      [constructor|vm_compute; reflexivity].
  - vm_compute. reflexivity.
  - vm_compute. reflexivity.
Defined.

Section SuccessfulFlow.
Context `{Imports}.

(** The state after a mounting commit whose setup reaches the wait for
    the iframe's load. *)
Lemma commit_init_success p env c u client v :
  getToolUiResourceUri (tool p) = Some (c :: u) ->
  resourceContent p <> [] ->
  mcpClient p = Some client ->
  construct_result (setup_env env) = None ->
  has_document (setup_env env) = true ->
  write_result (setup_env env) = None ->
  resolveContent (resourceContent p) = Normal v ->
  commit env p init =
  {| phase := Mounted p; loading := true; error := None; initialized := false;
     bridgeRef := None; iframeRef := true; cleanup := Some (Some 0%nat);
     sessions := [AwaitLoad];
     log := (if has_window (setup_env env) then [ListenLoad 0] else [])
            ++ [DocWrite 0 v; NewAppBridge 0 client (dark (setup_env env));
                ReadResource (onReadResource p) (c :: u)] |}.
Proof.
  intros Hu Hcontent Hcl Hcr Hd Hw Hv.
  destruct (resourceContent p) as [|c' content] eqn:Hco; [done|].
  unfold commit, init, fetch_effect, setup_effect. cbv [phase].
  rewrite Hu. state_norm. rewrite Hco, Hcl. cbv [truthy_str].
  run_M. rewrite Hcr. state_norm. rewrite Hd, Hv, Hw.
  by destruct (has_window (setup_env env)).
Qed.

End SuccessfulFlow.

Section Resumptions.
Context `{Imports}.

Lemma after_load_success b lenv s :
  window_after_load lenv = true -> transport_result lenv = None ->
  fst (setupApp_after_load b lenv s)
  = set_pc b AwaitConnect (emit (Connect b) (emit (NewTransport b) s)).
Proof. intros Hwl Htr. run_M. by rewrite Hwl, Htr. Qed.

Lemma after_connect_success b s :
  fst (setupApp_after_connect b None s)
  = set_pc b Connected (with_bridgeRef (Some b) s).
Proof. reflexivity. Qed.

Lemma pc_is_head pc rest s : sessions s = pc :: rest -> pc_is 0 pc s = true.
Proof. unfold pc_is, pc_of. intros ->. by destruct pc. Qed.

End Resumptions.

(** X5: the successful flow.  A component mounted with a tool that has
    a resource URI, non-empty content and a client, when every library
    call succeeds, reads the resource, constructs bridge 0, writes the
    resolved document, waits for the load, creates the transport and
    connects, in this order; once the guest has completed the handshake
    the spinner is off, no error is set, the iframe is displayed and the
    connected note names the tool. *)
Theorem X5_successful_flow `{Imports} (p : Props) (env : CommitEnv)
    (lenv : LoadEnv) (c : N) (u : list N) (client : nat) :
  getToolUiResourceUri (tool p) = Some (c :: u) ->
  resourceContent p <> [] ->
  mcpClient p = Some client ->
  construct_result (setup_env env) = None ->
  has_document (setup_env env) = true ->
  write_result (setup_env env) = None ->
  window_after_load lenv = true ->
  transport_result lenv = None ->
  let trace := [Commit p env; LoadSettled 0 lenv; ConnectSettled 0 None;
                BridgeInitialized 0] in
  let s := run trace init in
  admissible trace init = true /\
  handshakes_follow_connect trace init = true /\
  loading s = false /\ error s = None /\ initialized s = true /\
  bridgeRef s = Some 0%nat /\ sessions s = [Connected] /\
  (exists v,
      resolveContent (resourceContent p) = Normal v /\
      log s = [ConsoleLog; Connect 0; NewTransport 0]
              ++ (if has_window (setup_env env) then [ListenLoad 0] else [])
              ++ [DocWrite 0 v; NewAppBridge 0 client (dark (setup_env env));
                  ReadResource (onReadResource p) (c :: u)]) /\
  (exists f,
      view s = Some (AppView false None f (Some (name (tool p)))) /\
      display f = js "block").
Proof.
  intros Hu Hcontent Hcl Hcr Hd Hw Hwl Htr.
  destruct (resolveContent_total (resourceContent p)) as [v Hv].
  cbn [run admissible handshakes_follow_connect step enabled].
  rewrite (commit_init_success p env c u client v) by done.
  rewrite (pc_is_head AwaitLoad []) by reflexivity.
  rewrite (after_load_success 0 lenv) by done.
  rewrite (pc_is_head AwaitConnect []) by reflexivity.
  rewrite after_connect_success.
  rewrite (pc_is_head Connected []) by reflexivity.
  rewrite bool_decide_true by (simpl; lia).
  unfold on_initialized, view, render. state_norm. rewrite Hu.
  cbv [truthy_str]. repeat apply conj; try done.
  - by exists v.
  - by eexists.
Qed.

Lemma X5_successful_flow_witness :
  let trace := [Commit (props_of toolA envelope) fine; LoadSettled 0 loaded;
                ConnectSettled 0 None; BridgeInitialized 0] in
  let s := @run example_imports trace init in
  @admissible example_imports trace init = true /\
  @handshakes_follow_connect example_imports trace init = true /\
  loading s = false /\ error s = None /\ initialized s = true /\
  bridgeRef s = Some 0%nat /\ sessions s = [Connected] /\
  (exists v,
      @resolveContent example_imports (resourceContent (props_of toolA envelope))
        = Normal v /\
      log s = [ConsoleLog; Connect 0; NewTransport 0]
              ++ (if has_window (setup_env fine) then [ListenLoad 0] else [])
              ++ [DocWrite 0 v; NewAppBridge 0 0%nat (dark (setup_env fine));
                  ReadResource (onReadResource (props_of toolA envelope))
                    (117%N :: tl widget_uri)]) /\
  (exists f,
      @view example_imports s
        = Some (AppView false None f (Some (name (tool (props_of toolA envelope))))) /\
      display f = js "block").
Proof.
  apply (@X5_successful_flow example_imports (props_of toolA envelope) fine loaded
           117%N (tl widget_uri) 0%nat); try reflexivity.
  vm_compute. discriminate.
Defined.

Section BridgeRef.
Context `{Imports}.

(** [bridgeRef] is written only by the cleanup and by a resolved
    [connect]. *)
Lemma step_bridgeRef e s b :
  reachable s ->
  bridgeRef (step e s) = Some b ->
  bridgeRef s = Some b \/
  (e = ConnectSettled b None /\ pc_of b s = Some AwaitConnect).
Proof.
  intros Hr. destruct e as [p env|close|b' env|b' result|b'|b' m]; simpl.
  - destruct (is_unmounted s) eqn:Hm.
    { left. unfold commit in *. unfold is_unmounted in Hm.
      by destruct (phase s). }
    rewrite (commit_pieces_mounted env p s Hm).
    pose proof (commit_stage_cleanup env p s Hm (reachable_initial_cleanup s Hr))
      as Hstage.
    cbv zeta in *.
    match goal with |- context [fetch_effect p ?x] => set (s1 := x) in * end.
    destruct Hstage as (_ & _ & _ & _ & _ & Hcb1 & Hcase).
    set (s2 := if fetch_runs p s then fetch_effect p s1 else s1).
    assert (bridgeRef s2 = bridgeRef s1 /\ cleanup s2 = cleanup s1) as [Hb2 Hc2].
    { unfold s2. destruct (fetch_runs p s); [|done].
      by destruct (fetch_effect_exact p s1) as (_ & ? & _ & ? & _). }
    assert (bridgeRef s1 = Some b -> bridgeRef s = Some b) as Hb1.
    { destruct Hcase as [->|(_ & bridge & _ & _ & -> & _)]; done. }
    destruct (setup_runs p s) eqn:Hsr.
    + destruct (setup_effect_exact (setup_env env) p s2) as (_ & -> & _).
      { unfold current_bridge in *. rewrite Hc2. by apply Hcb1. }
      rewrite Hb2. intros. left. by apply Hb1.
    + rewrite Hb2. intros. left. by apply Hb1.
  - unfold unmount. destruct (phase s); try by left.
    destruct (run_cleanup_exact close s)
      as (_ & _ & _ & _ & _ & [[_ ->]|(bridge & _ & _ & Hb & _)]); [by left|].
    simpl. by rewrite Hb.
  - destruct (pc_is b' AwaitLoad s); [|by left].
    destruct (after_load_exact b' env s) as (_ & -> & _). by left.
  - destruct (pc_is b' AwaitConnect s) eqn:Hpc; [|by left].
    apply pc_is_true in Hpc.
    destruct (after_connect_exact b' result s)
      as (_ & _ & _ & _ & _ & [(-> & _ & -> & _)|(err & _ & _ & -> & _)]);
      [|by left].
    intros [= ->]. by right.
  - case_bool_decide; [|by left]. left.
    destruct s as [ph ld er ini br ifr cl ss lg]. unfold on_initialized in *.
    state_norm. by destruct ph.
  - case_bool_decide; [|by left]. left.
    destruct s as [ph ld er ini br ifr cl ss lg]. unfold on_error in *.
    state_norm. by destruct ph.
Qed.

End BridgeRef.

(** X6: a setup is not cancelled by the teardown of its effect.  When
    [connect] settles for a session whose bridge is no longer the one of
    the current effect - the content or the client has changed since, or
    the component was unmounted, and the bridge has been closed - the
    suspended [setupApp] still runs on: if [connect] resolved it stores
    the closed bridge in [bridgeRef]; if it rejected, and the component
    is mounted, it shows that failure and ends the spinner. *)
Theorem X6_stale_setup_is_not_cancelled `{Imports} (s : State) (b : nat) :
  reachable s ->
  pc_of b s = Some AwaitConnect ->
  current_bridge s <> Some b ->
  count_close b (log s) = 1%nat /\
  (forall result, enabled (ConnectSettled b result) s = true) /\
  bridgeRef (step (ConnectSettled b None) s) = Some b /\
  pc_of b (step (ConnectSettled b None) s) = Some Connected /\
  current_bridge (step (ConnectSettled b None) s) <> Some b /\
  (forall err,
      is_unmounted s = false ->
      error (step (ConnectSettled b (Some err)) s) = Some (error_message_of err) /\
      loading (step (ConnectSettled b (Some err)) s) = false).
Proof.
  intros Hr Hpc Hcur.
  assert (b < length (sessions s))%nat as Hlt.
  { unfold pc_of in Hpc. by eapply lookup_lt_Some. }
  destruct (accounted_reachable s Hr) as (Hclosed & _).
  assert (pc_is b AwaitConnect s = true) as Hen.
  { unfold pc_is. by rewrite Hpc. }
  cbn [step enabled]. rewrite Hen.
  split; [by apply Hclosed|]. split; [done|].
  split; [|split; [|split]].
  - by destruct (after_connect_exact b None s)
      as (_ & _ & _ & _ & _ & [(_ & _ & ? & _)|(err & ? & _)]).
  - destruct (after_connect_exact b None s)
      as (_ & _ & _ & _ & _ & [(_ & Hs & _)|(err & ? & _)]); [|done].
    unfold pc_of. rewrite Hs. by apply list_lookup_insert_eq.
  - destruct (after_connect_exact b None s) as (_ & _ & Hc & _).
    unfold current_bridge in *. by rewrite Hc.
  - intros err Hm.
    destruct (after_connect_exact b (Some err) s)
      as (_ & _ & _ & _ & _ & [(? & _)|(err' & [= <-] & _ & _ & _ & Hset)]);
      [done|]. by apply Hset.
Qed.

Lemma X6_stale_setup_is_not_cancelled_witness :
  let s := @run example_imports
             [Commit (props_of toolA envelope) fine; LoadSettled 0 loaded;
              Commit (props_of toolA markup) fine] init in
  count_close 0 (log s) = 1%nat /\
  (forall result, enabled (ConnectSettled 0 result) s = true) /\
  bridgeRef (@step example_imports (ConnectSettled 0 None) s) = Some 0%nat /\
  pc_of 0 (@step example_imports (ConnectSettled 0 None) s) = Some Connected /\
  current_bridge (@step example_imports (ConnectSettled 0 None) s)
    <> Some 0%nat /\
  (forall err,
      is_unmounted s = false ->
      error (@step example_imports (ConnectSettled 0 (Some err)) s)
        = Some (error_message_of err) /\
      loading (@step example_imports (ConnectSettled 0 (Some err)) s) = false).
Proof.
  apply (@X6_stale_setup_is_not_cancelled example_imports).
  - apply (@reachable_run example_imports
             [Commit (props_of toolA envelope) fine; LoadSettled 0 loaded;
              Commit (props_of toolA markup) fine] init);
      [constructor|vm_compute; reflexivity].
  - vm_compute. reflexivity.
  - vm_compute. discriminate.
Defined.

(** X7: in every execution [bridgeRef] holds only a bridge whose
    [connect] has resolved. *)
Theorem X7_bridgeRef_holds_connected_bridge `{Imports} (s : State) (b : nat) :
  reachable s -> bridgeRef s = Some b -> pc_of b s = Some Connected.
Proof.
  intros Hr. revert b. induction Hr as [|s e Hr IH He]; [done|].
  intros b Hb. destruct (step_bridgeRef e s b Hr Hb) as [Hb'|[-> Hpc]].
  - by destruct (step_session e s b Connected (IH b Hb')) as [?|[[? _]|[? _]]].
  - cbn [step]. unfold pc_is. rewrite Hpc. cbn [pc_eqb].
    destruct (after_connect_exact b None s)
      as (_ & _ & _ & _ & _ & [(_ & Hs & _)|(err & ? & _)]); [|done].
    unfold pc_of in *. rewrite Hs. apply list_lookup_insert_eq.
    by eapply lookup_lt_Some.
Qed.

Lemma X7_bridgeRef_holds_connected_bridge_witness :
  pc_of 0 (@run example_imports until_ready init) = Some Connected.
Proof.
  apply (@X7_bridgeRef_holds_connected_bridge example_imports).
  - apply reachable_run; [constructor|vm_compute; reflexivity].
  - vm_compute. reflexivity.
Defined.

(** X8: when [connect] rejects for a mounted component whose tool has a
    resource URI, the session has failed, the spinner is gone and the
    iframe is displayed; the banner shows the message of the error, or
    the fixed fallback for a thrown value that is not an [Error] - but
    for an [Error] with an empty message no banner is rendered at all. *)
Theorem X8_view_after_rejected_connect `{Imports} (s : State) (p : Props)
    (b : nat) (err : exn) :
  phase s = Mounted p ->
  truthy_str (getToolUiResourceUri (tool p)) = true ->
  pc_of b s = Some AwaitConnect ->
  let s' := step (ConnectSettled b (Some err)) s in
  pc_of b s' = Some Failed /\
  exists f note,
    view s' = Some (AppView false
                      (match err with
                       | ErrorObj [] => None
                       | ErrorObj (c :: m) => Some (c :: m)
                       | NonError => Some (js "Failed to set up app")
                       end) f note) /\
    display f = js "block".
Proof.
  intros Hph Hu Hpc. cbn [step].
  assert (pc_is b AwaitConnect s = true) as -> by (unfold pc_is; by rewrite Hpc).
  assert (b < length (sessions s))%nat as Hlt.
  { unfold pc_of in Hpc. by eapply lookup_lt_Some. }
  destruct (after_connect_exact b (Some err) s)
    as (_ & Hph' & _ & _ & _ & [(? & _)|(err' & [= <-] & Hs & _ & _ & Hset)]);
    [done|].
  destruct Hset as [He Hl]; [unfold is_unmounted; by rewrite Hph|].
  split.
  - unfold pc_of. rewrite Hs. by apply list_lookup_insert_eq.
  - unfold view, render. rewrite Hph', Hph, Hu, He, Hl.
    destruct err as [[|c m]|]; by eexists _, _.
Qed.

Lemma X8_view_after_rejected_connect_witness :
  let s := @run example_imports
             [Commit (props_of toolA envelope) fine; LoadSettled 0 loaded] init in
  let s' := @step example_imports (ConnectSettled 0 (Some (ErrorObj []))) s in
  pc_of 0 s' = Some Failed /\
  exists f note,
    @view example_imports s' = Some (AppView false None f note) /\
    display f = js "block".
Proof.
  apply (@X8_view_after_rejected_connect example_imports _
           (props_of toolA envelope) 0%nat (ErrorObj [])); vm_compute; reflexivity.
Defined.

Section Documents.
Context `{Imports}.

Lemma resolveContent_truthy c content v :
  resolveContent (c :: content) = Normal v -> truthy (Some v) = true.
Proof.
  destruct (resolveContent_cases (c :: content))
    as [->|(parsed & l & e & t & _ & _ & _ & _ & Ht & ->)]; by intros [= <-].
Qed.

(** A document is written only by a commit that runs the setup effect,
    and it is the resolution of the content of that render. *)
Lemma step_document e s b v :
  reachable s ->
  In (DocWrite b v) (log (step e s)) ->
  In (DocWrite b v) (log s) \/
  exists p env c content,
    e = Commit p env /\ setup_runs p s = true /\
    resourceContent p = c :: content /\
    resolveContent (c :: content) = Normal v /\
    b = length (sessions s) /\
    sessions (step e s) = sessions s ++ [AwaitLoad].
Proof.
  intros Hr Hin.
  assert ((forall p env, e <> Commit p env) \/ exists p env, e = Commit p env)
    as [Hother|(p & env & ->)].
  { destruct e; try (left; intros; discriminate). right. by eexists _, _. }
  { destruct (step_other_log e s Hother) as (acts & Hl & Ha).
    rewrite Hl in Hin. apply in_app_or in Hin as [Hin|?]; [|by left].
    rewrite List.Forall_forall in Ha. by destruct (Ha _ Hin). }
  cbn [step] in *. destruct (is_unmounted s) eqn:Hm.
  { left. unfold commit in Hin. unfold is_unmounted in Hm. by destruct (phase s). }
  destruct (commit_log env p s Hm (reachable_initial_cleanup s Hr))
    as (closing & setting & Hl & Hclosing & Hsetting).
  rewrite Hl in Hin.
  apply in_app_or in Hin as [Hin|Hin]; [|apply in_app_or in Hin as [Hin|Hin];
    [|apply in_app_or in Hin as [Hin|Hin]; [|by left]]].
  - destruct Hsetting
      as [[-> _]|[[-> _]|(Hsr & _ & _ & client & c & content & _ & Hco &
                          [[-> _]|(v' & Hv & -> & Hs)])]].
    + done.
    + by destruct Hin as [?|[]].
    + by destruct Hin as [?|[?|[]]].
    + right. exists p, env, c, content.
      assert (DocWrite b v = DocWrite (length (sessions s)) v') as [= -> ->].
      { destruct (has_window (setup_env env));
          [destruct Hin as [?|[?|[?|[]]]]|destruct Hin as [?|[?|[]]]]; done. }
      done.
  - destruct (fetch_runs p s); [|done].
    destruct (getToolUiResourceUri (tool p)) as [[|c u]|]; try done.
    by destruct Hin as [?|[]].
  - rewrite List.Forall_forall in Hclosing. by destruct (Hclosing _ Hin).
Qed.

(** Sessions are never forgotten. *)
Lemma step_sessions_length e s :
  (length (sessions s) <= length (sessions (step e s)))%nat.
Proof.
  destruct e as [p env|close|b env|b result|b|b m]; cbn [step].
  - destruct (commit_frame env p s) as [_ [->|(pc & _ & ->)]]; [done|].
    rewrite length_app. lia.
  - unfold unmount. destruct (phase s); try done.
    destruct (run_cleanup_exact close s) as (_ & Hs & _). simpl. by rewrite Hs.
  - destruct (pc_is b AwaitLoad s); [|done].
    destruct (after_load_exact b env s)
      as (_ & _ & _ & _ & _ & _ & [(_ & _ & -> & _)|(_ & -> & _)]);
      by rewrite length_insert.
  - destruct (pc_is b AwaitConnect s); [|done].
    destruct (after_connect_exact b result s)
      as (_ & _ & _ & _ & _ & [(_ & -> & _)|(err & _ & -> & _)]);
      by rewrite length_insert.
  - case_bool_decide; [|done]. destruct s as [ph ld er ini br ifr cl ss lg].
    unfold on_initialized. state_norm. by destruct ph.
  - case_bool_decide; [|done]. destruct s as [ph ld er ini br ifr cl ss lg].
    unfold on_error. state_norm. by destruct ph.
Qed.

End Documents.

(** X9: a document is written only by a commit that runs the setup
    effect with non-empty content, for the bridge that this commit has
    constructed, and what is written is the resolution of the content of
    that very render.  Every value written is truthy: it is the content
    string itself, which is not empty, or the truthy [text] value of an
    envelope entry. *)
Theorem X9_written_document_is_resolved_content `{Imports} (s : State) :
  reachable s ->
  (forall e b v,
      In (DocWrite b v) (log (step e s)) ->
      In (DocWrite b v) (log s) \/
      exists p env,
        e = Commit p env /\ setup_runs p s = true /\
        resourceContent p <> [] /\
        resolveContent (resourceContent p) = Normal v /\
        b = length (sessions s) /\
        (v = JString (resourceContent p) \/
         exists parsed l c,
           JSON_parse (resourceContent p) = Some parsed /\
           envelope_contents parsed = Some l /\ In c l /\
           selectable c = true /\ entry_text c = Some v)) /\
  (forall b v,
      In (DocWrite b v) (log s) ->
      (b < length (sessions s))%nat /\ truthy (Some v) = true).
Proof.
  intros Hr. split.
  - intros e b v Hin.
    destruct (step_document e s b v Hr Hin)
      as [?|(p & env & c & content & -> & Hsr & Hco & Hv & -> & _)]; [by left|].
    right. exists p, env. rewrite Hco. repeat apply conj; try done.
    destruct (resolveContent_cases (c :: content))
      as [Hraw|(parsed & l & x & t & Hp & Hl & Hf & Ht & _ & Hres)].
    + left. congruence.
    + right. destruct (array_find_some _ _ Hf) as (Hs & l1 & l2 & -> & _).
      exists parsed, (l1 ++ x :: l2), x. repeat apply conj; try done.
      * apply in_or_app. right. by left.
      * congruence.
  - induction Hr as [|s e Hr IH He]; [done|].
    intros b v Hin.
    destruct (step_document e s b v Hr Hin)
      as [Hold|(p & env & c & content & -> & _ & Hco & Hv & -> & Hs)].
    + destruct (IH b v Hold) as (Hlt & Ht). split; [|done].
      pose proof (step_sessions_length e s). lia.
    + rewrite Hs. rewrite length_app. simpl. split; [lia|].
      by eapply resolveContent_truthy.
Qed.

Lemma X9_written_document_is_resolved_content_witness :
  (0 < length (sessions (@run example_imports until_ready init)))%nat /\
  truthy (Some (JString markup)) = true.
Proof.
  destruct (@X9_written_document_is_resolved_content example_imports
              (@run example_imports until_ready init)) as (_ & Hinv).
  - apply reachable_run; [constructor|vm_compute; reflexivity].
  - apply (Hinv 0%nat (JString markup)).
    vm_compute. do 4 right. left. reflexivity.
Defined.

Section SessionOrder.
Context `{Imports}.

Lemma count_connect_app b l1 l2 :
  count_connect b (l1 ++ l2) = (count_connect b l1 + count_connect b l2)%nat.
Proof.
  induction l1 as [|a l1 IH]; [done|]. destruct a; simpl; rewrite ?IH; lia.
Qed.

Lemma count_connect_quiet b acts : Forall quiet acts -> count_connect b acts = 0%nat.
Proof. induction 1 as [|a l Ha _ IH]; [done|]. by destruct a. Qed.

Lemma session_order_quiet acts l :
  Forall quiet acts -> session_order (acts ++ l) <-> session_order l.
Proof. induction 1 as [|a acts Ha _ IH]; [done|]. by destruct a. Qed.

Lemma session_order_connect_once l b :
  session_order l -> (count_connect b l <= 1)%nat.
Proof.
  induction l as [|a l IH]; [simpl; lia|].
  destruct a; simpl; try done.
  - intros (_ & Ho). by apply IH.
  - intros (_ & _ & Hz & Ho). destruct (Nat.eqb_spec b b0) as [->|_].
    + rewrite Hz. lia.
    + specialize (IH Ho). lia.
Qed.

Lemma session_order_split l1 a l2 :
  session_order (l1 ++ a :: l2) -> session_order (a :: l2).
Proof.
  induction l1 as [|x l1 IH]; [done|].
  destruct x; simpl; try done.
  - intros (_ & ?). by apply IH.
  - intros (_ & _ & _ & ?). by apply IH.
Qed.

(** A step that connects nothing, writes no document and starts no
    wait for a load keeps the order. *)
Lemma ordered_quiet s s' acts :
  log s' = acts ++ log s -> Forall quiet acts ->
  (forall b, pc_of b s' = Some AwaitLoad -> pc_of b s = Some AwaitLoad) ->
  (length (sessions s) <= length (sessions s'))%nat ->
  sessions_ordered s -> sessions_ordered s'.
Proof.
  intros Hl Hq Hpc Hlen (Ho & Hwait & Hout). unfold sessions_ordered.
  rewrite Hl. split; [|split].
  - by apply session_order_quiet.
  - intros b Hb. destruct (Hwait b (Hpc b Hb)) as [Hz [v Hv]].
    rewrite count_connect_app, Hz, count_connect_quiet by done.
    split; [done|]. exists v. apply in_or_app. by right.
  - intros b Hb. rewrite count_connect_app, count_connect_quiet by done.
    rewrite Hout; [done|lia].
Qed.

Lemma ordered_commit env p s :
  reachable s -> sessions_ordered s -> sessions_ordered (commit env p s).
Proof.
  intros Hr Hord. destruct (is_unmounted s) eqn:Hm.
  { unfold commit. unfold is_unmounted in Hm. by destruct (phase s). }
  destruct (commit_log env p s Hm (reachable_initial_cleanup s Hr))
    as (closing & setting & Hl & Hclosing & Hsetting).
  set (reading := if fetch_runs p s
                  then match getToolUiResourceUri (tool p) with
                       | Some (c :: u) => [ReadResource (onReadResource p) (c :: u)]
                       | _ => []
                       end
                  else []) in *.
  assert (Forall quiet (reading ++ closing)) as Hq.
  { apply Forall_app. split.
    - unfold reading. destruct (fetch_runs p s); [|done].
      destruct (getToolUiResourceUri (tool p)) as [[|c u]|]; by repeat constructor.
    - eapply Forall_impl; [exact Hclosing|]. intros a. by destruct a. }
  assert (forall pc, sessions (commit env p s) = sessions s ++ [pc] -> pc <> AwaitLoad ->
            forall b, pc_of b (commit env p s) = Some AwaitLoad ->
                      pc_of b s = Some AwaitLoad) as Hkeep.
  { intros pc Hs Hne b. unfold pc_of. rewrite Hs. intros Hb.
    apply lookup_app_Some in Hb as [?|[_ Hb]]; [done|].
    apply list_lookup_singleton_Some in Hb as [_ Heq]. congruence. }
  destruct Hsetting as [[-> Hs]|[[-> Hs]|(_ & _ & _ & client & c & content & _ & _ &
                                         [[-> Hs]|(v & _ & -> & Hs)])]].
  - apply (ordered_quiet s _ (reading ++ closing)); try done.
    + by rewrite Hl, (app_assoc reading).
    + intros b. unfold pc_of. by rewrite Hs.
    + by rewrite Hs.
  - apply (ordered_quiet s _ (ConsoleError :: reading ++ closing)); try done.
    + by rewrite Hl, (app_assoc reading).
    + by constructor.
    + intros b. unfold pc_of. by rewrite Hs.
    + by rewrite Hs.
  - apply (ordered_quiet s _
             ([ConsoleError;
               NewAppBridge (length (sessions s)) client (dark (setup_env env))]
              ++ reading ++ closing)); try done.
    + by rewrite Hl, (app_assoc reading).
    + by repeat constructor.
    + by apply (Hkeep Failed).
    + rewrite Hs, length_app. lia.
  - destruct Hord as (Ho & Hwait & Hout).
    set (n := length (sessions s)) in *.
    set (new := NewAppBridge n client (dark (setup_env env))) in *.
    assert (log (commit env p s)
            = (if has_window (setup_env env) then [ListenLoad n] else [])
              ++ DocWrite n v :: (new :: reading ++ closing) ++ log s) as Hl'.
    { rewrite Hl, (app_assoc reading). by destruct (has_window _). }
    assert (forall b, count_connect b (log (commit env p s))
                      = count_connect b (log s)) as Hcc.
    { intros b. rewrite Hl', count_connect_app. simpl.
      rewrite count_connect_app, (count_connect_quiet b (reading ++ closing)) by done.
      by destruct (has_window _). }
    unfold sessions_ordered. split; [|split].
    + rewrite Hl'. apply session_order_quiet;
        [destruct (has_window _); by repeat constructor|].
      simpl. split; [by eexists _, _, _|].
      by apply (session_order_quiet (reading ++ closing)).
    + intros b Hb. rewrite Hcc. unfold pc_of in Hb. rewrite Hs in Hb.
      apply lookup_app_Some in Hb as [Hb|[Hge Hb]].
      * destruct (Hwait b Hb) as [Hz [v' Hv']]. split; [done|].
        exists v'. rewrite Hl'. apply in_or_app. right. right.
        apply in_or_app. by right.
      * apply list_lookup_singleton_Some in Hb as [Hb _].
        assert (b = n) as -> by (unfold n; lia).
        split; [by apply Hout|]. exists v. rewrite Hl'.
        apply in_or_app. right. by left.
    + intros b Hb. rewrite Hcc. apply Hout.
      rewrite Hs, length_app in Hb. simpl in Hb. unfold n in *. lia.
Qed.

Lemma ordered_step e s :
  reachable s -> sessions_ordered s -> sessions_ordered (step e s).
Proof.
  intros Hr Hord. destruct e as [p env|close|b env|b result|b|b m]; cbn [step].
  - by apply ordered_commit.
  - unfold unmount. destruct (phase s) eqn:Hph; try done.
    destruct (run_cleanup_exact close s)
      as (_ & Hs & _ & _ & _ & [[_ Heq]|(bridge & _ & _ & _ & _ & Hl)]).
    { rewrite Heq. by apply (ordered_quiet s _ []). }
    assert (exists acts, log (run_cleanup close s) = acts ++ log s /\
                         Forall quiet acts) as (acts & Hl' & Hq).
    { destruct bridge as [b|]; [destruct Hl as [->|[_ ->]]|rewrite Hl].
      - exists [Close b]. by repeat constructor.
      - exists [ConsoleError; Close b]. by repeat constructor.
      - by exists []. }
    apply (ordered_quiet s _ acts); try done.
    + intros b. unfold pc_of. simpl. by rewrite Hs.
    + simpl. by rewrite Hs.
  - destruct (pc_is b AwaitLoad s) eqn:Hpc; [|done].
    apply pc_is_true in Hpc.
    assert (b < length (sessions s))%nat as Hlt.
    { unfold pc_of in Hpc. by eapply lookup_lt_Some. }
    destruct (after_load_exact b env s)
      as (_ & _ & _ & _ & _ & _ & [(_ & _ & Hs & _ & _ & Hl)|(_ & Hs & Hl)]).
    + destruct Hord as (Ho & Hwait & Hout).
      destruct (Hwait b Hpc) as [Hz [v Hv]].
      unfold sessions_ordered. rewrite Hl. split; [|split].
      * simpl. split; [by eexists|]. split; [exists v; by right|]. done.
      * intros b' Hb'. unfold pc_of in Hb'. rewrite Hs in Hb'.
        destruct (decide (b = b')) as [<-|Hne].
        { rewrite list_lookup_insert_eq in Hb' by done. done. }
        rewrite list_lookup_insert_ne in Hb' by done.
        destruct (Hwait b' Hb') as [Hz' [v' Hv']]. simpl.
        destruct (Nat.eqb_spec b' b) as [->|_]; [done|].
        split; [done|]. exists v'. right. by right.
      * intros b' Hb'. rewrite Hs, length_insert in Hb'. simpl.
        destruct (Nat.eqb_spec b' b) as [->|_]; [lia|]. by apply Hout.
    + apply (ordered_quiet s _ [ConsoleError]); try done.
      * by repeat constructor.
      * intros b'. unfold pc_of. rewrite Hs.
        destruct (decide (b = b')) as [<-|Hne].
        { by rewrite list_lookup_insert_eq. }
        by rewrite list_lookup_insert_ne.
      * by rewrite Hs, length_insert.
  - destruct (pc_is b AwaitConnect s) eqn:Hpc; [|done].
    apply pc_is_true in Hpc.
    assert (b < length (sessions s))%nat as Hlt.
    { unfold pc_of in Hpc. by eapply lookup_lt_Some. }
    assert (forall pc, pc <> AwaitLoad ->
              forall b', <[b:=pc]> (sessions s) !! b' = Some AwaitLoad ->
                         pc_of b' s = Some AwaitLoad) as Hkeep.
    { intros pc Hne b'. destruct (decide (b = b')) as [<-|Hne'].
      - rewrite list_lookup_insert_eq by done. congruence.
      - by rewrite list_lookup_insert_ne. }
    destruct (after_connect_exact b result s)
      as (_ & _ & _ & _ & _ & [(_ & Hs & _ & _ & _ & Hl)|(err & _ & Hs & _ & Hl & _)]).
    + apply (ordered_quiet s _ []); try done.
      * unfold pc_of. rewrite Hs. by apply Hkeep.
      * by rewrite Hs, length_insert.
    + apply (ordered_quiet s _ [ConsoleError]); try done.
      * by repeat constructor.
      * unfold pc_of. rewrite Hs. by apply Hkeep.
      * by rewrite Hs, length_insert.
  - case_bool_decide; [|done].
    apply (ordered_quiet s _ [ConsoleLog]); try done;
      destruct s as [ph ld er ini br ifr cl ss lg]; unfold on_initialized;
      state_norm; destruct ph; by repeat constructor.
  - case_bool_decide; [|done].
    apply (ordered_quiet s _ [ConsoleError]); try done;
      destruct s as [ph ld er ini br ifr cl ss lg]; unfold on_error;
      state_norm; destruct ph; by repeat constructor.
Qed.

Lemma ordered_reachable s : reachable s -> sessions_ordered s.
Proof.
  induction 1 as [|s e Hs IH He]; [|by apply ordered_step].
  split; [done|]. split; [|done]. intros b. unfold pc_of. simpl.
  by rewrite lookup_nil.
Qed.

End SessionOrder.

(** X10: the order of the calls of one session.  In every execution
    [connect] is called at most once on a bridge, directly after the
    transport for it was created, only after the document of its session
    was written, and never for a second time; and a document is written
    directly after the bridge of its session was constructed. *)
Theorem X10_calls_of_a_session_are_ordered `{Imports} (s : State) :
  reachable s ->
  (forall b, (count_connect b (log s) <= 1)%nat) /\
  (forall l1 l2 b,
      log s = l1 ++ Connect b :: l2 ->
      (exists l2', l2 = NewTransport b :: l2') /\
      (exists v, In (DocWrite b v) l2) /\
      count_connect b l2 = 0%nat) /\
  (forall l1 l2 b v,
      log s = l1 ++ DocWrite b v :: l2 ->
      exists client d l2', l2 = NewAppBridge b client d :: l2').
Proof.
  intros Hr. destruct (ordered_reachable s Hr) as (Ho & _).
  repeat apply conj.
  - intros b. by apply session_order_connect_once.
  - intros l1 l2 b Hl. rewrite Hl in Ho.
    apply session_order_split in Ho. simpl in Ho.
    by destruct Ho as (? & ? & ? & _).
  - intros l1 l2 b v Hl. rewrite Hl in Ho.
    apply session_order_split in Ho. simpl in Ho. by destruct Ho as (? & _).
Qed.

Lemma X10_calls_of_a_session_are_ordered_witness :
  (count_connect 0 (log (@run example_imports until_ready init)) <= 1)%nat.
Proof.
  destruct (@X10_calls_of_a_session_are_ordered example_imports
              (@run example_imports until_ready init)) as (Hone & _).
  - apply reachable_run; [constructor|vm_compute; reflexivity].
  - apply (Hone 0%nat).
Defined.

(** * AppsTab: further properties *)

Section TabInvariants.

Lemma filter_effect_appTools tp st :
  appTools (filter_effect tp st) = List.filter hasUIMetadata (tools tp).
Proof.
  unfold filter_effect. simpl. destruct (selectedTool st) as [sel|]; [|done].
  by destruct (List.find _ _).
Qed.

Lemma filter_effect_selected tp st sel :
  selectedTool (filter_effect tp st) = Some sel ->
  selectedTool st = Some sel /\
  exists t, In t (List.filter hasUIMetadata (tools tp)) /\ name t = name sel.
Proof.
  unfold filter_effect. simpl. destruct (selectedTool st) as [sel'|]; [|done].
  destruct (List.find _ _) as [t|] eqn:Hf; [|done]. simpl. intros [= ->].
  split; [done|]. apply List.find_some in Hf as [Hin Heq].
  exists t. split; [done|]. unfold str_eqb in Heq.
  by apply bool_decide_eq_true in Heq.
Qed.

Lemma filter_effect_settled tp st :
  filter_effect tp (filter_effect tp st) = filter_effect tp st.
Proof.
  unfold filter_effect at 2 3. simpl.
  destruct (selectedTool st) as [sel|] eqn:Hsel; [|done].
  destruct (List.find _ _) as [t|] eqn:Hf; [|done].
  unfold filter_effect. simpl. by rewrite Hf.
Qed.

Lemma filtered_have_metadata (l : list Tool) :
  Forall (fun t => hasUIMetadata t = true) (List.filter hasUIMetadata l).
Proof.
  apply List.Forall_forall. intros t Hin. by apply List.filter_In in Hin as [_ ?].
Qed.

Lemma has_metadata_uri t :
  hasUIMetadata t = true -> exists c u, declared_uri t = Some (c :: u).
Proof.
  unfold hasUIMetadata, truthy_str.
  destruct (declared_uri t) as [[|c u]|]; try done. by exists c, u.
Qed.

Lemma tab_invariant_step e x : tab_invariant x -> tab_invariant (tab_step e x).
Proof.
  destruct x as [tp st due]. intros (Hall & Hsel & Hset).
  unfold tab_invariant in *.
  destruct e as [tp'|client onRead contents| |i|]; simpl in *.
  - split; [done|]. split; [done|]. done.
  - split; [done|]. split; [done|]. exact Hset.
  - split; [|split].
    + rewrite filter_effect_appTools. apply filtered_have_metadata.
    + intros sel Hs. apply filter_effect_selected in Hs as [Hs _]. by apply Hsel.
    + intros _. split; [apply filter_effect_appTools|].
      split; [apply filter_effect_settled|].
      intros sel Hs. apply filter_effect_selected in Hs as (_ & t & Hin & Hn).
      apply List.filter_In in Hin as [? ?]. by exists t.
  - destruct (appTools st !! i) as [t|] eqn:Hi; simpl.
    + split; [done|]. split; [|done].
      intros sel [= <-]. rewrite List.Forall_forall in Hall. apply Hall.
      apply list_elem_of_In. by apply list_elem_of_lookup_2 with i.
    + split; [done|]. split; [done|]. exact Hset.
  - split; [done|]. split; [done|]. done.
Qed.

Lemma tab_invariant_reachable x : tab_reachable x -> tab_invariant x.
Proof.
  induction 1 as [tp|x e Hx IH]; [|by apply tab_invariant_step].
  unfold tab_invariant. simpl. split; [constructor|]. split; done.
Qed.

Lemma click_card_selects x i t :
  tab_invariant x -> effect_due x = false ->
  appTools (tab_state x) !! i = Some t ->
  let y := tab_run [ClickCard i; TabEffect] x in
  selectedTool (tab_state y) = Some t /\ effect_due y = false.
Proof.
  destruct x as [tp st due]. intros (_ & _ & Hset) Hd Hi. simpl in *.
  destruct (Hset Hd) as (Happ & _). rewrite Hi. simpl.
  apply list_elem_of_lookup_2, list_elem_of_In in Hi. rewrite Happ in Hi.
  destruct (find_by_name_some t _ t Hi eq_refl) as [t' Hf].
  unfold resets_selection, filter_effect. simpl. by rewrite Hf.
Qed.

End TabInvariants.

(** X11: the selection of the Apps tab, at every moment of any sequence
    of renders, effect runs and clicks.  The listed app tools and the
    selected tool have a non-empty [_meta.ui.resourceUri].  The effect
    is due at most twice in a row: after two runs nothing is left to do.
    Once the effect has run for the current tools and selection, the
    listed app tools are exactly the tools with UI metadata, in the order
    of the tools list, the name of the selected tool is carried by one of
    them, and running the effect again would change nothing; a click on
    a card then selects the tool shown there, and the effect keeps it.
    The close button removes the selection, and with it the renderer. *)
Theorem X11_tab_selection_invariants (x : Tab) :
  tab_reachable x ->
  Forall (fun t => exists c u, declared_uri t = Some (c :: u))
         (appTools (tab_state x)) /\
  (forall sel, selectedTool (tab_state x) = Some sel ->
               exists c u, declared_uri sel = Some (c :: u)) /\
  effect_due (tab_run [TabEffect; TabEffect] x) = false /\
  (effect_due x = false ->
   appTools (tab_state x) = List.filter hasUIMetadata (tools (props_now x)) /\
   filter_effect (props_now x) (tab_state x) = tab_state x /\
   (forall sel, selectedTool (tab_state x) = Some sel ->
      exists t, In t (tools (props_now x)) /\ hasUIMetadata t = true /\
                name t = name sel) /\
   (forall i t, appTools (tab_state x) !! i = Some t ->
      let y := tab_run [ClickCard i; TabEffect] x in
      selectedTool (tab_state y) = Some t /\ effect_due y = false)) /\
  (let y := tab_run [ClickClose; TabEffect] x in
   selectedTool (tab_state y) = None /\ effect_due y = false /\
   renderer_props (props_now y) (tab_state y) = None).
Proof.
  intros Hr. pose proof (tab_invariant_reachable x Hr) as Hinv.
  destruct Hinv as (Hall & Hsel & Hset).
  split; [|split; [|split; [|split]]].
  - eapply Forall_impl; [exact Hall|]. intros t. apply has_metadata_uri.
  - intros sel Hs. by apply has_metadata_uri, Hsel.
  - destruct x as [tp st due]. simpl.
    unfold resets_selection, filter_effect. simpl.
    destruct (selectedTool st) as [sel|]; [|done].
    destruct (List.find _ _) as [t|] eqn:Hf; simpl; [by rewrite Hf|done].
  - intros Hd. destruct (Hset Hd) as (Happ & Hfix & Hlisted).
    repeat apply conj; try done.
    intros i t Hi. by apply click_card_selects.
  - destruct x as [tp st due]. by simpl.
Qed.

Lemma X11_tab_selection_invariants_witness :
  let x := tab_run [TabEffect; ClickCard 1; TabEffect;
                    TabRender tab_props_without_B; TabEffect; TabEffect]
                   (tab_mount tab_props) in
  let y := tab_run [ClickCard 0; TabEffect] x in
  selectedTool (tab_state x) = None /\
  selectedTool (tab_state y) = Some toolA /\ effect_due y = false.
Proof.
  intros x y. split; [vm_compute; reflexivity|].
  destruct (X11_tab_selection_invariants x) as (_ & _ & _ & Hsettled & _).
  - do 6 apply tab_stepped. apply tab_mounted.
  - destruct Hsettled as (_ & _ & _ & Hclick); [vm_compute; reflexivity|].
    apply (Hclick 0%nat toolA). vm_compute. reflexivity.
Defined.

(** X12: the cards of the Apps tab, in every render of any sequence of
    renders, effect runs and clicks.  There is one card for each listed
    app tool, with its name and its non-empty resource URI (the fallback
    to the empty string is never taken), and the "No MCP Apps available"
    alert is shown exactly when none is listed.  Once the effect has run
    for the current tools, the cards are those of the tools with UI
    metadata, in the order of the tools list, and the alert is shown
    exactly when no tool has UI metadata.  Before that they are those of
    the previous tools list; in particular the first render after
    mounting shows the alert and no card, whatever the tools are. *)
Theorem X12_tab_cards (x : Tab) :
  tab_reachable x ->
  let v := tab_render (props_now x) (tab_state x) in
  cards v = map card_of (appTools (tab_state x)) /\
  Forall (fun c => card_uri c <> []) (cards v) /\
  Forall2 (fun t c => card_name c = name t /\ declared_uri t = Some (card_uri c))
          (appTools (tab_state x)) (cards v) /\
  (empty_alert v = true <-> appTools (tab_state x) = []) /\
  (effect_due x = false ->
   cards v = map card_of (List.filter hasUIMetadata (tools (props_now x))) /\
   (empty_alert v = true <->
    Forall (fun t => hasUIMetadata t = false) (tools (props_now x)))) /\
  (forall tp,
     empty_alert (tab_render tp (tab_state (tab_mount tp))) = true /\
     cards (tab_render tp (tab_state (tab_mount tp))) = []).
Proof.
  intros Hr. destruct (tab_invariant_reachable x Hr) as (Hall & _ & Hset).
  destruct x as [tp st due]. simpl in *. unfold tab_render. simpl.
  assert (forall l : list Tool,
            Forall (fun t => hasUIMetadata t = true) l ->
            Forall (fun c => card_uri c <> []) (map card_of l) /\
            Forall2 (fun t c => card_name c = name t /\
                                declared_uri t = Some (card_uri c))
                    l (map card_of l)) as Hcards.
  { induction 1 as [|t l Hui _ [IH1 IH2]]; [by split|]. simpl.
    destruct (has_metadata_uri t Hui) as (c & u & Hu).
    split; constructor; try done; simpl; by rewrite Hu. }
  assert (forall l : list Tool,
            (length (List.filter hasUIMetadata l) =? 0)%nat = true <->
            Forall (fun t => hasUIMetadata t = false) l) as Hnone.
  { induction l as [|t l IH]; [done|]. simpl.
    destruct (hasUIMetadata t) eqn:Hui; simpl.
    - split; [done|]. intros Hno. inversion Hno; congruence.
    - rewrite IH. split; [by constructor|]. intros Hno. by inversion Hno. }
  destruct (Hcards (appTools st) Hall) as [Hc1 Hc2].
  assert ((if (length (appTools st) =? 0)%nat then []
           else map card_of (appTools st)) = map card_of (appTools st)) as ->.
  { by destruct (appTools st). }
  split; [done|]. split; [done|]. split; [done|]. split; [|split].
  - destruct (appTools st); simpl; split; done.
  - intros Hd. destruct (Hset Hd) as (Happ & _). rewrite Happ.
    split; [done|]. apply Hnone.
  - done.
Qed.

Lemma X12_tab_cards_witness :
  cards (tab_render tab_props (tab_state (tab_run [TabEffect] (tab_mount tab_props))))
  = map card_of (List.filter hasUIMetadata (tools tab_props)).
Proof.
  destruct (X12_tab_cards (tab_run [TabEffect] (tab_mount tab_props)))
    as (_ & _ & _ & _ & Hsettled & _).
  - apply tab_stepped. apply tab_mounted.
  - destruct Hsettled as [Hcards _]; [vm_compute; reflexivity|]. exact Hcards.
Defined.

(** X13: a renderer is mounted with a tool that has a resource URI and
    with the empty string as content, as long as the resource has not
    been read.  It asks for the resource once, shows the spinner with the
    iframe hidden, constructs no bridge and writes no document; no
    promise is pending and no bridge exists that could call back, so it
    stays like this until it is rendered again or removed. *)
Theorem X13_unread_resource_shows_spinner `{Imports} (p : Props)
    (env : CommitEnv) (c : N) (u : list N) :
  resourceContent p = [] ->
  getToolUiResourceUri (tool p) = Some (c :: u) ->
  let s := step (Commit p env) init in
  log s = [ReadResource (onReadResource p) (c :: u)] /\
  sessions s = [] /\ cleanup s = None /\
  loading s = true /\ error s = None /\ initialized s = false /\
  (exists f, view s = Some (AppView true None f None) /\ display f = js "none") /\
  (forall e, enabled e s = true ->
             (exists p' env', e = Commit p' env') \/ exists close, e = Unmount close).
Proof.
  intros Hco Hu.
  cbn [step]. unfold commit, init, fetch_effect, setup_effect. cbv [phase].
  rewrite Hu. state_norm. rewrite Hco. state_norm.
  unfold view, render. state_norm. rewrite Hu. cbv [truthy_str].
  repeat apply conj; try done.
  - by eexists.
  - intros [p' env'|close|b lenv|b result|b|b m]; cbn [enabled].
    + left. by eexists _, _.
    + right. by eexists.
    + unfold pc_is, pc_of. by simpl.
    + unfold pc_is, pc_of. by simpl.
    + by simpl.
    + by simpl.
Qed.

Lemma X13_unread_resource_shows_spinner_witness :
  let s := @step example_imports (Commit (props_of toolA []) fine) init in
  log s = [ReadResource 0 (117%N :: tl widget_uri)] /\
  sessions s = [] /\ cleanup s = None /\
  loading s = true /\ error s = None /\ initialized s = false /\
  (exists f, @view example_imports s = Some (AppView true None f None) /\
             display f = js "none") /\
  (forall e, enabled e s = true ->
             (exists p' env', e = Commit p' env') \/ exists close, e = Unmount close).
Proof.
  apply (@X13_unread_resource_shows_spinner example_imports
           (props_of toolA []) fine 117%N (tl widget_uri)); reflexivity.
Defined.
